(** * vscode-bitbake: embedded-language redirection of completion and definition requests

    A shallow embedding of

    - the definition middleware of the client, [middlewareProvideDefinition]
      with [processDefinitions], [ajustDefinitionRange] and
      [redirectDefinition] (module [DefinitionMiddleware]),
    - the completion middleware of the client,
      [client/src/language/middlewareCompletion.ts] (module [CompletionMiddleware]),
    - the definition handler of the language server, [onDefinitionHandler]
      (module [OnDefinition]),

    together with models of the helpers these files import from [utils.ts]
    and [lib/src/utils/arrays.ts] (modules [Translator], [Utils], [Arrays]),
    which say where they come from at their declaration. *)

From Stdlib Require Import ZArith List String Ascii Bool Lia Permutation.
Import ListNotations.

Local Open Scope string_scope.
Local Open Scope list_scope.

(** ** The vscode data model *)

Definition Uri := string.

Record Position := mkPosition { line : Z; character : Z }.

Record Range := mkRange { start : Position; end_ : Position }.

(** [new Range(startLine, startCharacter, endLine, endCharacter)] *)
Definition newRange (startLine startCharacter endLine endCharacter : Z) : Range :=
  mkRange (mkPosition startLine startCharacter) (mkPosition endLine endCharacter).

Definition Position_isEqual (p q : Position) : bool :=
  (line p =? line q)%Z && (character p =? character q)%Z.

Definition Range_isEqual (r s : Range) : bool :=
  Position_isEqual (start r) (start s) && Position_isEqual (end_ r) (end_ s).

Record Location := mkLocation { uri : Uri; range : Range }.

Record LocationLink := mkLocationLink {
  originSelectionRange : option Range;
  targetUri : Uri;
  targetRange : Range;
  targetSelectionRange : option Range
}.

(** [Location | LocationLink]; [definition instanceof Location] is the
    match on the constructor. *)
Inductive DefinitionEntry :=
| IsLocation (l : Location)
| IsLocationLink (l : LocationLink).

Record TextDocument := mkTextDocument { doc_uri : Uri; doc_text : string }.

Record EmbeddedLanguageDocInfos := mkInfos {
  infos_uri : Uri;
  language : string;
  characterIndexes : list Z
}.

Lemma Position_isEqual_spec (p q : Position) : Position_isEqual p q = true <-> p = q.
Proof.
  destruct p as [l c], q as [l' c']; unfold Position_isEqual; simpl.
  rewrite andb_true_iff, !Z.eqb_eq. split.
  - intros [-> ->]; reflexivity.
  - intros E; injection E; auto.
Qed.

Lemma Range_isEqual_spec (r s : Range) : Range_isEqual r s = true <-> r = s.
Proof.
  destruct r as [a b], s as [a' b']; unfold Range_isEqual; simpl.
  rewrite andb_true_iff, !Position_isEqual_spec. split.
  - intros [-> ->]; reflexivity.
  - intros E; injection E; auto.
Qed.

(** ** The position and range translation of [client/src/language/utils.ts]

    [getEmbeddedLanguageDocPosition] (toEmbedded) and [getOriginalDocRange]
    (toHost) are imported by both middlewares; their file is not among the
    sources at hand. *)
Module Translator.

Definition isLineBreak (c : ascii) : bool := Ascii.eqb c (ascii_of_nat 10).

(** The length of the first line of a text. *)
Fixpoint lineLength (text : string) : nat :=
  match text with
  | EmptyString => 0
  | String c rest => if isLineBreak c then 0 else S (lineLength rest)
  end.

(** Modelled from the spec: [TextDocument.offsetAt], "offsets are
    character-based", found by "re-scanning the target document's text for
    line-break boundaries"; a character beyond the end of its line is taken
    as the end of the line. *)
Fixpoint offsetAtLine (text : string) (ln col : nat) {struct text} : nat :=
  match ln, text with
  | O, _ => Nat.min col (lineLength text)
  | S _, EmptyString => 0
  | S ln', String c rest => S (offsetAtLine rest (if isLineBreak c then ln' else ln) col)
  end.

Definition offsetAt (document : TextDocument) (position : Position) : nat :=
  offsetAtLine (doc_text document) (Z.to_nat (line position)) (Z.to_nat (character position)).

(** Modelled from the spec: [TextDocument.positionAt], the line and character
    of an offset, by the same scan. *)
Fixpoint positionAtOffset (text : string) (offset : nat) {struct text} : nat * nat :=
  match offset, text with
  | O, _ => (0, 0)%nat
  | S _, EmptyString => (0, 0)%nat
  | S offset', String c rest =>
      let (ln, col) := positionAtOffset rest offset' in
      if isLineBreak c then (S ln, col)
      else (ln, match ln with O => S col | S _ => col end)
  end.

Definition positionAt (document : TextDocument) (offset : nat) : Position :=
  let (ln, col) := positionAtOffset (doc_text document) offset in
  mkPosition (Z.of_nat ln) (Z.of_nat col).

(** A position of the document: its line exists and its character is on it. *)
Fixpoint onLine (text : string) (ln col : nat) {struct text} : bool :=
  match ln, text with
  | O, _ => Nat.leb col (lineLength text)
  | S _, EmptyString => false
  | S ln', String c rest => onLine rest (if isLineBreak c then ln' else ln) col
  end.

Definition isPositionOf (document : TextDocument) (position : Position) : bool :=
  (0 <=? line position)%Z && (0 <=? character position)%Z
  && onLine (doc_text document) (Z.to_nat (line position)) (Z.to_nat (character position)).

(** The table entry is a host offset (a negative entry is the sentinel for
    "no mapping"). *)
Definition isMapped (entry : Z) : bool := (0 <=? entry)%Z.

(** The scan of the table for "the nearest offset at or before" the host
    offset: the index and value of the greatest mapped entry that is not
    beyond it, the first such index when the entry occurs more than once. *)
Fixpoint nearestAtOrBefore (table : list Z) (hostOffset : Z) (index : nat) (best : option (nat * Z))
  : option (nat * Z) :=
  match table with
  | [] => best
  | entry :: rest =>
      let better :=
        isMapped entry && (entry <=? hostOffset)%Z
        && match best with
           | None => true
           | Some (_, value) => (value <? entry)%Z
           end in
      nearestAtOrBefore rest hostOffset (S index) (if better then Some (index, entry) else best)
  end.

(** Modelled from the spec: toEmbedded, [getEmbeddedLanguageDocPosition] of
    utils.ts: it "converts a host-space position to virtual-space by
    locating, via the table, the nearest offset at or before the
    corresponding host character offset, then re-deriving line/character
    within the virtual document's own line-break structure", and "fails
    (returns undefined) if the position lies entirely outside any mapped
    span".  Entry [i] of the table is "the character offset in the host
    document that corresponds to character offset [i] in the virtual
    document". *)
Definition toEmbedded
  (hostDoc virtualDoc : TextDocument) (table : list Z) (hostPosition : Position) : option Position :=
  match nearestAtOrBefore table (Z.of_nat (offsetAt hostDoc hostPosition)) 0 None with
  | Some (virtualOffset, _) => Some (positionAt virtualDoc virtualOffset)
  | None => None
  end.

(** The host position of a position of the virtual document, when its offset
    has a mapping. *)
Definition toHostPosition
  (hostDoc virtualDoc : TextDocument) (table : list Z) (virtualPosition : Position) : option Position :=
  match nth_error table (offsetAt virtualDoc virtualPosition) with
  | Some entry => if isMapped entry then Some (positionAt hostDoc (Z.to_nat entry)) else None
  | None => None
  end.

(** Modelled from the spec: toHost, [getOriginalDocRange] of utils.ts, the
    "inverse mapping for a range; returns undefined if either endpoint has no
    corresponding host offset": "both endpoints must map successfully or the
    whole range mapping fails". *)
Definition toHost
  (hostDoc virtualDoc : TextDocument) (table : list Z) (virtualRange : Range) : option Range :=
  match toHostPosition hostDoc virtualDoc table (start virtualRange),
        toHostPosition hostDoc virtualDoc table (end_ virtualRange) with
  | Some s, Some e => Some (mkRange s e)
  | _, _ => None
  end.

(** *** Offsets and positions *)

Lemma positionAtOffset_first_line (text : string) (col : nat) :
  (col <= lineLength text)%nat -> positionAtOffset text col = (0, col)%nat.
Proof.
  revert col. induction text as [| c rest IH]; intros col H; simpl in *.
  - assert (col = 0)%nat by lia. subst. reflexivity.
  - destruct col as [| col]; [reflexivity |].
    destruct (isLineBreak c); [lia |].
    rewrite IH by lia. reflexivity.
Qed.

(** On a position of the text, [positionAt] undoes [offsetAt]. *)
Lemma positionAtOffset_offsetAtLine (text : string) (ln col : nat) :
  onLine text ln col = true ->
  positionAtOffset text (offsetAtLine text ln col) = (ln, col).
Proof.
  revert ln col. induction text as [| c rest IH]; intros ln col H.
  - destruct ln; simpl in *; [| discriminate].
    apply Nat.leb_le in H. assert (col = 0)%nat by lia. subst. reflexivity.
  - destruct ln as [| ln'].
    + simpl in H. apply Nat.leb_le in H.
      change (offsetAtLine (String c rest) 0 col) with (Nat.min col (lineLength (String c rest))).
      rewrite Nat.min_l by exact H. now apply positionAtOffset_first_line.
    + simpl in *. rewrite IH by exact H.
      destruct (isLineBreak c); reflexivity.
Qed.

Lemma offsetAtLine_first_line (text : string) (col : nat) :
  offsetAtLine text 0 col = Nat.min col (lineLength text).
Proof. destruct text; reflexivity. Qed.

(** On an offset of the text, [offsetAt] undoes [positionAt]. *)
Lemma offsetAtLine_positionAtOffset (text : string) (offset : nat) :
  (offset <= String.length text)%nat ->
  offsetAtLine text (fst (positionAtOffset text offset)) (snd (positionAtOffset text offset)) = offset.
Proof.
  revert offset. induction text as [| c rest IH]; intros offset H.
  - simpl in H. assert (offset = 0)%nat by lia. subst. reflexivity.
  - destruct offset as [| offset']; [reflexivity |].
    simpl in H. specialize (IH offset' ltac:(lia)).
    cbn [positionAtOffset]. destruct (positionAtOffset rest offset') as [ln col]; cbn [fst snd] in IH.
    destruct (isLineBreak c) eqn:B.
    + cbn [fst snd offsetAtLine]. rewrite B. now rewrite IH.
    + destruct ln as [| ln'].
      * cbn [fst snd offsetAtLine lineLength] in *. rewrite B.
        rewrite <- Nat.succ_min_distr. f_equal. now rewrite <- offsetAtLine_first_line.
      * cbn [fst snd offsetAtLine] in *. rewrite B. f_equal. exact IH.
Qed.

Lemma positionAt_offsetAt (document : TextDocument) (position : Position) :
  isPositionOf document position = true ->
  positionAt document (offsetAt document position) = position.
Proof.
  unfold isPositionOf, positionAt, offsetAt. intros H.
  apply andb_true_iff in H as [H H3]. apply andb_true_iff in H as [H1 H2].
  apply Z.leb_le in H1, H2.
  rewrite positionAtOffset_offsetAtLine by exact H3.
  destruct position as [l c]; simpl in *. now rewrite !Z2Nat.id.
Qed.

Lemma offsetAt_positionAt (document : TextDocument) (offset : nat) :
  (offset <= String.length (doc_text document))%nat ->
  offsetAt document (positionAt document offset) = offset.
Proof.
  unfold offsetAt, positionAt. intros H.
  pose proof (offsetAtLine_positionAtOffset (doc_text document) offset H) as E.
  destruct (positionAtOffset (doc_text document) offset) as [ln col]; simpl in *.
  now rewrite !Nat2Z.id.
Qed.

(** *** The scan of the table *)

Definition bestValue (best : option (nat * Z)) (bound : Z) : Prop :=
  match best with
  | Some (_, value) => (bound <= value)%Z
  | None => False
  end.

(** What the scan returns is an entry of the table, at the index returned. *)
Lemma nearestAtOrBefore_entry (table before : list Z) (hostOffset : Z) (best : option (nat * Z)) i e :
  (forall j v, best = Some (j, v) -> nth_error (before ++ table) j = Some v /\ isMapped v = true) ->
  nearestAtOrBefore table hostOffset (List.length before) best = Some (i, e) ->
  nth_error (before ++ table) i = Some e /\ isMapped e = true.
Proof.
  revert before best. induction table as [| entry rest IH]; intros before best Hbest H; simpl in H.
  - now apply Hbest.
  - replace (before ++ entry :: rest) with ((before ++ [entry]) ++ rest) in *
      by (now rewrite <- app_assoc).
    apply (IH (before ++ [entry])
             (if isMapped entry && (entry <=? hostOffset)%Z
                 && match best with None => true | Some (_, value) => (value <? entry)%Z end
              then Some (List.length before, entry) else best)).
    + intros j v Hj.
      destruct (isMapped entry && (entry <=? hostOffset)%Z
                && match best with None => true | Some (_, value) => (value <? entry)%Z end) eqn:B.
      * injection Hj as <- <-. split.
        -- rewrite <- app_assoc. rewrite nth_error_app2 by lia.
           now rewrite Nat.sub_diag.
        -- apply andb_true_iff in B as [B _]. now apply andb_true_iff in B as [B _].
      * now apply Hbest.
    + rewrite length_app. simpl. now rewrite Nat.add_1_r.
Qed.

(** The value returned is not below any mapped entry at or before the
    offset, nor below the best so far. *)
Lemma nearestAtOrBefore_greatest (table : list Z) (hostOffset : Z) (index : nat)
      (best : option (nat * Z)) (bound : Z) :
  (bestValue best bound
   \/ (In bound table /\ isMapped bound = true /\ (bound <= hostOffset)%Z)) ->
  bestValue (nearestAtOrBefore table hostOffset index best) bound.
Proof.
  revert index best. induction table as [| entry rest IH]; intros index best H; simpl.
  - destruct H as [H | [[] _]]. exact H.
  - apply IH.
    destruct (isMapped entry && (entry <=? hostOffset)%Z
              && match best with None => true | Some (_, value) => (value <? entry)%Z end) eqn:B.
    + destruct H as [H | [[<- | Hin] [Hm Hle]]].
      * left. apply andb_true_iff in B as [_ B]. destruct best as [[j v] |]; simpl in *; [| tauto].
        apply Z.ltb_lt in B. lia.
      * left. simpl. lia.
      * right. tauto.
    + destruct H as [H | [[<- | Hin] [Hm Hle]]].
      * now left.
      * left. rewrite Hm in B. simpl in B.
        apply Z.leb_le in Hle. rewrite Hle in B. simpl in B.
        destruct best as [[j v] |]; simpl in *; [| discriminate].
        apply Z.ltb_ge in B. exact B.
      * right. tauto.
Qed.

Lemma nearestAtOrBefore_bounded (table : list Z) (hostOffset : Z) (index : nat)
      (best : option (nat * Z)) i e :
  (forall j v, best = Some (j, v) -> (v <= hostOffset)%Z) ->
  nearestAtOrBefore table hostOffset index best = Some (i, e) ->
  (e <= hostOffset)%Z.
Proof.
  revert index best. induction table as [| entry rest IH]; intros index best Hbest H; simpl in H.
  - eapply Hbest; eauto.
  - eapply IH; [| exact H]. intros j v Hj.
    destruct (isMapped entry && (entry <=? hostOffset)%Z
              && match best with None => true | Some (_, value) => (value <? entry)%Z end) eqn:B.
    + injection Hj as <- <-. apply andb_true_iff in B as [B _].
      apply andb_true_iff in B as [_ B]. now apply Z.leb_le.
    + eapply Hbest; eauto.
Qed.

(** On a mapped host offset the scan finds an index whose entry is this very
    offset. *)
Lemma nearestAtOrBefore_mapped (table : list Z) (hostOffset : Z) :
  In hostOffset table -> isMapped hostOffset = true ->
  exists i,
    nearestAtOrBefore table hostOffset 0 None = Some (i, hostOffset)
    /\ nth_error table i = Some hostOffset.
Proof.
  intros Hin Hm.
  pose proof (nearestAtOrBefore_greatest table hostOffset 0 None hostOffset) as G.
  destruct (nearestAtOrBefore table hostOffset 0 None) as [[i e] |] eqn:E.
  - simpl in G.
    assert (e <= hostOffset)%Z.
    { eapply nearestAtOrBefore_bounded; [| exact E]. discriminate. }
    assert (hostOffset <= e)%Z by (apply G; right; repeat split; auto; lia).
    assert (e = hostOffset) by lia. subst e.
    exists i. split; auto.
    apply (nearestAtOrBefore_entry table [] hostOffset None i hostOffset); [discriminate | exact E].
  - simpl in G. exfalso. apply G. right. repeat split; auto; lia.
Qed.

(** The host offset of the position is an entry of the table: the position
    lies on a mapped offset of an embedded span. *)
Definition inEmbeddedSpan (hostDoc : TextDocument) (table : list Z) (hostPosition : Position) : Prop :=
  isPositionOf hostDoc hostPosition = true
  /\ In (Z.of_nat (offsetAt hostDoc hostPosition)) table.

(** The recipe ["ab" / "cd"], whose second line is the embedded text ["cd"]. *)
Definition lineBreak : string := String (ascii_of_nat 10) EmptyString.
Definition recipe : TextDocument := mkTextDocument "file:///recipes/foo.bb" ("ab" ++ lineBreak ++ "cd").
Definition embedded : TextDocument := mkTextDocument "file:///embedded/foo.py" "cd".

Example offsetAt_recipe : offsetAt recipe (mkPosition 1 1) = 4%nat.
Proof. reflexivity. Qed.

Example offsetAt_beyond_line_end : offsetAt recipe (mkPosition 0 7) = 2%nat.
Proof. reflexivity. Qed.

Example positionAt_recipe : positionAt recipe 4 = mkPosition 1 1.
Proof. reflexivity. Qed.

Example toEmbedded_recipe : toEmbedded recipe embedded [3; 4]%Z (mkPosition 1 0) = Some (mkPosition 0 0).
Proof. reflexivity. Qed.

Example toEmbedded_before_span : toEmbedded recipe embedded [3; 4]%Z (mkPosition 0 1) = None.
Proof. reflexivity. Qed.

Example toHost_unmapped : toHost recipe embedded [3; -1]%Z (newRange 0 0 0 1) = None.
Proof. reflexivity. Qed.

(** On a host offset that is no entry of the table toEmbedded answers with
    the nearest offset before it, and the way back ends there. *)
Example toHost_after_toEmbedded_off_the_table :
  toEmbedded recipe embedded [0; 3]%Z (mkPosition 0 1) = Some (mkPosition 0 0)
  /\ toHost recipe embedded [0; 3]%Z (mkRange (mkPosition 0 0) (mkPosition 0 0))
     = Some (mkRange (mkPosition 0 0) (mkPosition 0 0)).
Proof. split; reflexivity. Qed.

Lemma toHostPosition_toEmbedded hostDoc virtualDoc table P :
  inEmbeddedSpan hostDoc table P ->
  List.length table = String.length (doc_text virtualDoc) ->
  exists Q,
    toEmbedded hostDoc virtualDoc table P = Some Q
    /\ toHostPosition hostDoc virtualDoc table Q = Some P.
Proof.
  intros [Hp Hin] Hlen.
  destruct (nearestAtOrBefore_mapped table (Z.of_nat (offsetAt hostDoc P)) Hin)
    as [i [E N]].
  { unfold isMapped. apply Z.leb_le. lia. }
  unfold toEmbedded. rewrite E. eexists. split; [reflexivity |].
  unfold toHostPosition.
  assert (i < List.length table)%nat by (apply nth_error_Some; congruence).
  rewrite offsetAt_positionAt by lia.
  rewrite N. unfold isMapped.
  replace (0 <=? Z.of_nat (offsetAt hostDoc P))%Z with true by (symmetry; apply Z.leb_le; lia).
  rewrite Nat2Z.id. now rewrite positionAt_offsetAt.
Qed.

(** C9: for a position P of the host document that lies on a mapped offset
    of an embedded span (the table has the length of the virtual document),
    toEmbedded succeeds, toHost succeeds on the position it returns, and the
    round trip yields P again; so whenever both translations succeed, the
    result of toHost after toEmbedded is P. *)
Theorem toHost_after_toEmbedded hostDoc virtualDoc table P :
  inEmbeddedSpan hostDoc table P ->
  List.length table = String.length (doc_text virtualDoc) ->
  (exists Q,
      toEmbedded hostDoc virtualDoc table P = Some Q
      /\ toHost hostDoc virtualDoc table (mkRange Q Q) = Some (mkRange P P))
  /\ (forall Q R,
        toEmbedded hostDoc virtualDoc table P = Some Q ->
        toHost hostDoc virtualDoc table (mkRange Q Q) = Some R ->
        R = mkRange P P).
Proof.
  intros Hspan Hlen.
  destruct (toHostPosition_toEmbedded hostDoc virtualDoc table P Hspan Hlen) as [Q [E1 E2]].
  assert (E3 : toHost hostDoc virtualDoc table (mkRange Q Q) = Some (mkRange P P)).
  { unfold toHost. simpl. now rewrite E2. }
  split.
  - exists Q. auto.
  - intros Q' R H1 H2. rewrite E1 in H1. injection H1 as <-. congruence.
Qed.

(** Line 1, character 1 of the recipe is offset 1 of the embedded text and
    comes back from there. *)
Lemma toHost_after_toEmbedded_witness :
  inEmbeddedSpan recipe [3; 4]%Z (mkPosition 1 1)
  /\ toEmbedded recipe embedded [3; 4]%Z (mkPosition 1 1) = Some (mkPosition 0 1)
  /\ forall Q R,
       toEmbedded recipe embedded [3; 4]%Z (mkPosition 1 1) = Some Q ->
       toHost recipe embedded [3; 4]%Z (mkRange Q Q) = Some R ->
       R = mkRange (mkPosition 1 1) (mkPosition 1 1).
Proof.
  assert (S : inEmbeddedSpan recipe [3; 4]%Z (mkPosition 1 1)).
  { split; [reflexivity | right; left; reflexivity]. }
  split; [exact S |]. split; [reflexivity |].
  exact (proj2 (toHost_after_toEmbedded recipe embedded [3; 4]%Z (mkPosition 1 1) S eq_refl)).
Defined.

End Translator.

(** ** Helpers of [client/src/language/utils.ts]

    The middlewares import these helpers; their file is not part of the
    sources at hand.  The two coordinate translations
    ([getEmbeddedLanguageDocPosition], [getOriginalDocRange]) stay parameters
    of the middlewares below; the small accessors on definition entries are
    modelled here. *)
Module Utils.

(** Modelled from the spec: [getDefinitionUri] of utils.ts, the target URI of
    a definition entry ("both variants carry exactly one target range pair":
    [uri] for a Location, [targetUri] for a LocationLink). *)
Definition getDefinitionUri (definition : DefinitionEntry) : Uri :=
  match definition with
  | IsLocation l => uri l
  | IsLocationLink l => targetUri l
  end.

(** Modelled from the spec: [checkIsDefinitionUriEqual] of utils.ts, "its
    target URI is (not) the virtual document". *)
Definition checkIsDefinitionUriEqual (definition : DefinitionEntry) (u : Uri) : bool :=
  String.eqb (getDefinitionUri definition) u.

(** Modelled from the spec: [changeDefinitionUri] of utils.ts, "rewrite the
    entry's target URI".  The source mutates the entry; the updated entry is
    returned here. *)
Definition changeDefinitionUri (definition : DefinitionEntry) (u : Uri) : DefinitionEntry :=
  match definition with
  | IsLocation l => IsLocation (mkLocation u (range l))
  | IsLocationLink l =>
      IsLocationLink (mkLocationLink (originSelectionRange l) u (targetRange l) (targetSelectionRange l))
  end.

(** The target range of an entry: [range] resp. [targetRange]. *)
Definition getDefinitionRange (definition : DefinitionEntry) : Range :=
  match definition with
  | IsLocation l => range l
  | IsLocationLink l => targetRange l
  end.

(** Modelled from the spec: [checkIsDefinitionRangeEqual] of utils.ts, "the
    entry's range exactly matches" the tested range. *)
Definition checkIsDefinitionRangeEqual (definition : DefinitionEntry) (r : Range) : bool :=
  Range_isEqual (getDefinitionRange definition) r.

(** Modelled from the spec: [convertToSameDefinitionType] of utils.ts, "a
    redirected result must be coerced to match the shape of the entry it
    replaces". *)
Definition convertToSameDefinitionType (reference definition : DefinitionEntry) : DefinitionEntry :=
  match reference, definition with
  | IsLocation _, IsLocation _ => definition
  | IsLocation _, IsLocationLink l => IsLocation (mkLocation (targetUri l) (targetRange l))
  | IsLocationLink _, IsLocation l => IsLocationLink (mkLocationLink None (uri l) (range l) None)
  | IsLocationLink _, IsLocationLink _ => definition
  end.

(** Two entries have the same shape: both Location or both LocationLink. *)
Definition sameShape (a b : DefinitionEntry) : bool :=
  match a, b with
  | IsLocation _, IsLocation _ => true
  | IsLocationLink _, IsLocationLink _ => true
  | _, _ => false
  end.

End Utils.

(** ** A recipe with an embedded python document

    The embedded python document of [foo.bb] starts with four injected lines
    (the imports and the declarations of [d] and [e], which is why the
    trigger ranges of the redirections sit on lines 2 and 3); the python code
    of the recipe follows and lies ten lines further down in the recipe. *)
Module Recipe.

Definition hostUri : Uri := "file:///recipes/foo.bb".
Definition virtualUri : Uri := "file:///embedded/foo.py".
Definition libraryUri : Uri := "file:///lib/bb/data_smart.py".

Definition hostDocument : TextDocument := mkTextDocument hostUri "".
Definition virtualDocument : TextDocument := mkTextDocument virtualUri "".
Definition pythonInfos : EmbeddedLanguageDocInfos := mkInfos virtualUri "python" [].

(** A translation to the recipe that misses on the injected lines. *)
Definition toHostExample (_ _ : TextDocument) (_ : list Z) (r : Range) : option Range :=
  if ((line (start r) <? 4) || (line (end_ r) <? 4))%Z then None
  else Some (newRange (line (start r) + 10) (character (start r))
                      (line (end_ r) + 10) (character (end_ r))).

Definition toEmbeddedExample (_ _ : TextDocument) (_ : list Z) (p : Position) : Position :=
  mkPosition (line p - 10) (character p).

Definition typeExample (_ : string) (_ : Position) : option string := Some "python".
Definition infosExample (_ : Uri) (_ : string) : option EmbeddedLanguageDocInfos := Some pythonInfos.
Definition noInfos (_ : Uri) (_ : string) : option EmbeddedLanguageDocInfos := None.
Definition openExample (u : Uri) : TextDocument := mkTextDocument u "".

End Recipe.

(** ** Asynchronous callbacks

    An [async] function is a tree of its effects: pushes on the shared
    [result] array, suspension points, and commands sent to the editor.  The
    tree is inductive: every callback of the source ends after finitely many
    steps. *)
Module Async.

Inductive Task (A : Type) : Type :=
| Return (a : A)
  (* [result.push(...ds)] and go on *)
| Push (ds : list DefinitionEntry) (k : Task A)
  (* [await p] on a promise that is already settled: the rest runs in a later job *)
| Await (k : Task A)
  (* [await commands.executeCommand('vscode.executeDefinitionProvider', uri, pos)] *)
| ExecuteDefinitionProvider (u : Uri) (pos : Position) (k : list DefinitionEntry -> Task A).

Arguments Return {A} a.
Arguments Push {A} ds k.
Arguments Await {A} k.
Arguments ExecuteDefinitionProvider {A} u pos k.

Fixpoint bind {A B : Type} (t : Task A) (f : A -> Task B) : Task B :=
  match t with
  | Return a => f a
  | Push ds k => Push ds (bind k f)
  | Await k => Await (bind k f)
  | ExecuteDefinitionProvider u pos k => ExecuteDefinitionProvider u pos (fun r => bind (k r) f)
  end.

(** [await f(...)] where [f] is an [async] function: the callee runs up to
    its own suspension points, and once it has settled the caller goes on in
    a later job. *)
Definition await {A : Type} (callee : Task A) : Task A :=
  bind callee (fun a => Await (Return a)).

(** What the editor and the job queue have seen so far. *)
Inductive Event :=
| Pushed (d : DefinitionEntry)
| CalledNext (document : Uri) (position : Position)
| CalledGetEmbeddedLanguageTypeOnPosition (u : string) (position : Position)
| CalledOpenTextDocument (u : Uri)
| CalledExecuteDefinitionProvider (u : Uri) (position : Position).

Definition pushedOf (e : Event) : list DefinitionEntry :=
  match e with Pushed d => [d] | _ => [] end.

(** The content of the [result] array after the events of a trace. *)
Definition resultOf (trace : list Event) : list DefinitionEntry :=
  flat_map pushedOf trace.

Definition isProviderCall (e : Event) : bool :=
  match e with CalledExecuteDefinitionProvider _ _ => true | _ => false end.

(** The calls of the embedded definition provider in a trace. *)
Definition providerCalls (trace : list Event) : list Event :=
  filter isProviderCall trace.

(** A callback between two jobs: settled, waiting for its next job, or
    waiting for the answer of a command it has sent. *)
Inductive Suspended (A : Type) : Type :=
| Settled (a : A)
| Resumable (k : Task A)
| Pending (u : Uri) (pos : Position) (k : list DefinitionEntry -> Task A).

Arguments Settled {A} a.
Arguments Resumable {A} k.
Arguments Pending {A} u pos k.

Section Jobs.

Context {A : Type}.

(** The embedded definition provider behind [commands.executeCommand]. *)
Variable executeDefinitionProvider : Uri -> Position -> list DefinitionEntry.

(** One job: run a task up to its next suspension point. *)
Fixpoint runJob (t : Task A) (trace : list Event) : Suspended A * list Event :=
  match t with
  | Return a => (Settled a, trace)
  | Push ds k => runJob k (trace ++ map Pushed ds)
  | Await k => (Resumable k, trace)
  | ExecuteDefinitionProvider u pos k =>
      (Pending u pos k, trace ++ [CalledExecuteDefinitionProvider u pos])
  end.

Definition resume (s : Suspended A) (trace : list Event) : Suspended A * list Event :=
  match s with
  | Settled a => (Settled a, trace)
  | Resumable k => runJob k trace
  | Pending u pos k => runJob (k (executeDefinitionProvider u pos)) trace
  end.

(** Resume the [i]-th callback of the pool (nothing happens when it has
    settled or when there is no such callback). *)
Fixpoint resumeAt (i : nat) (pool : list (Suspended A)) (trace : list Event) {struct pool}
  : list (Suspended A) * list Event :=
  match pool with
  | [] => ([], trace)
  | s :: pool' =>
      match i with
      | O => let (s', trace') := resume s trace in (s' :: pool', trace')
      | S j => let (pool'', trace') := resumeAt j pool' trace in (s :: pool'', trace')
      end
  end.

(** A completion timing is the order in which the suspended callbacks are
    resumed.  Every order is allowed: the job queue of the runtime resumes
    the callbacks in one of them. *)
Fixpoint runSchedule (schedule : list nat) (pool : list (Suspended A)) (trace : list Event)
  : list (Suspended A) * list Event :=
  match schedule with
  | [] => (pool, trace)
  | i :: schedule' =>
      let (pool', trace') := resumeAt i pool trace in runSchedule schedule' pool' trace'
  end.

(** Run a task to its end, all its jobs in a row. *)
Fixpoint finish (t : Task A) (trace : list Event) : list Event :=
  match t with
  | Return _ => trace
  | Push ds k => finish k (trace ++ map Pushed ds)
  | Await k => finish k trace
  | ExecuteDefinitionProvider u pos k =>
      finish (k (executeDefinitionProvider u pos)) (trace ++ [CalledExecuteDefinitionProvider u pos])
  end.

Definition finishSuspended (s : Suspended A) (trace : list Event) : list Event :=
  match s with
  | Settled _ => trace
  | Resumable k => finish k trace
  | Pending u pos k => finish (k (executeDefinitionProvider u pos)) trace
  end.

(** Whatever is still suspended when the schedule ends is resumed in index
    order until it settles. *)
Definition drain (pool : list (Suspended A)) (trace : list Event) : list Event :=
  fold_left (fun tr s => finishSuspended s tr) pool trace.

(** The synchronous part of [array.map(async ...)]: each callback runs up to
    its first suspension point, in index order. *)
Fixpoint startAll (tasks : list (Task A)) (trace : list Event)
  : list (Suspended A) * list Event :=
  match tasks with
  | [] => ([], trace)
  | t :: tasks' =>
      let (s, trace') := runJob t trace in
      let (pool, trace'') := startAll tasks' trace' in
      (s :: pool, trace'')
  end.

(** [await Promise.all(tasks)] under a completion timing. *)
Definition promiseAll (schedule : list nat) (tasks : list (Task A)) (trace : list Event)
  : list Event :=
  let (pool, trace') := startAll tasks trace in
  let (pool', trace'') := runSchedule schedule pool trace' in
  drain pool' trace''.

End Jobs.

(** A task that never suspends: it settles within the job that starts it. *)
Fixpoint synchronous {A : Type} (t : Task A) : bool :=
  match t with
  | Return _ => true
  | Push _ k => synchronous k
  | Await _ => false
  | ExecuteDefinitionProvider _ _ _ => false
  end.

Section JobFacts.

Context {A : Type}.
Variable provider : Uri -> Position -> list DefinitionEntry.

(** The events a suspended callback will still add. *)
Definition pendingOf (s : Suspended A) : list Event := finishSuspended provider s [].

Lemma finish_app (t : Task A) (trace : list Event) :
  finish provider t trace = trace ++ finish provider t [].
Proof.
  revert trace. induction t as [a | ds k IH | k IH | u pos k IH]; intros trace; simpl.
  - now rewrite app_nil_r.
  - rewrite IH, (IH (map Pushed ds)). now rewrite app_assoc.
  - apply IH.
  - rewrite IH, (IH _ [CalledExecuteDefinitionProvider u pos]). now rewrite app_assoc.
Qed.

Lemma finishSuspended_app (s : Suspended A) (trace : list Event) :
  finishSuspended provider s trace = trace ++ pendingOf s.
Proof.
  unfold pendingOf. destruct s; simpl.
  - now rewrite app_nil_r.
  - apply finish_app.
  - apply finish_app.
Qed.

(** A job moves events from what is pending to the trace, and nothing else. *)
Lemma runJob_finish (t : Task A) (trace : list Event) :
  finishSuspended provider (fst (runJob t trace)) (snd (runJob t trace)) = finish provider t trace.
Proof.
  revert trace. induction t as [a | ds k IH | k IH | u pos k IH]; intros trace; simpl; auto.
Qed.

Lemma resume_finish (s : Suspended A) (trace : list Event) :
  finishSuspended provider (fst (resume provider s trace)) (snd (resume provider s trace))
  = finishSuspended provider s trace.
Proof.
  destruct s; simpl; auto using runJob_finish.
Qed.

Lemma runJob_extends (t : Task A) (trace : list Event) :
  exists more, snd (runJob t trace) = trace ++ more.
Proof.
  revert trace. induction t as [a | ds k IH | k IH | u pos k IH]; intros trace; simpl.
  - exists []. now rewrite app_nil_r.
  - destruct (IH (trace ++ map Pushed ds)) as [more E]. exists (map Pushed ds ++ more).
    now rewrite E, app_assoc.
  - exists []. now rewrite app_nil_r.
  - eexists; reflexivity.
Qed.

Lemma resume_extends (s : Suspended A) (trace : list Event) :
  exists more, snd (resume provider s trace) = trace ++ more.
Proof.
  destruct s; simpl; auto using runJob_extends.
  exists []. now rewrite app_nil_r.
Qed.

Lemma resumeAt_extends (i : nat) (pool : list (Suspended A)) (trace : list Event) :
  exists more, snd (resumeAt provider i pool trace) = trace ++ more.
Proof.
  revert i. induction pool as [| s pool IH]; intros i; simpl.
  - exists []. now rewrite app_nil_r.
  - destruct i as [| j].
    + destruct (resume_extends s trace) as [more E].
      destruct (resume provider s trace); simpl in *. eauto.
    + destruct (IH j) as [more E].
      destruct (resumeAt provider j pool trace); simpl in *. eauto.
Qed.

Lemma runSchedule_extends (schedule : list nat) (pool : list (Suspended A)) (trace : list Event) :
  exists more, snd (runSchedule provider schedule pool trace) = trace ++ more.
Proof.
  revert pool trace. induction schedule as [| i schedule IH]; intros pool trace; simpl.
  - exists []. now rewrite app_nil_r.
  - destruct (resumeAt_extends i pool trace) as [m1 E1].
    destruct (resumeAt provider i pool trace) as [pool' trace']; simpl in *. subst trace'.
    destruct (IH pool' (trace ++ m1)) as [m2 E2]. exists (m1 ++ m2).
    now rewrite E2, app_assoc.
Qed.

Lemma drain_app (pool : list (Suspended A)) (trace : list Event) :
  drain provider pool trace = trace ++ flat_map pendingOf pool.
Proof.
  unfold drain. revert trace. induction pool as [| s pool IH]; intros trace; simpl.
  - now rewrite app_nil_r.
  - rewrite IH, finishSuspended_app. now rewrite app_assoc.
Qed.

(** Resuming a callback permutes nothing that was already there: the trace
    with all that is pending is the same multiset before and after. *)
Lemma resumeAt_pending (i : nat) (pool : list (Suspended A)) (trace : list Event) :
  Permutation
    (snd (resumeAt provider i pool trace) ++ flat_map pendingOf (fst (resumeAt provider i pool trace)))
    (trace ++ flat_map pendingOf pool).
Proof.
  revert i trace. induction pool as [| s pool IH]; intros i trace; simpl.
  - reflexivity.
  - destruct i as [| j].
    + pose proof (resume_finish s trace) as E.
      destruct (resume provider s trace) as [s' trace']; simpl in *.
      rewrite !finishSuspended_app in E.
      rewrite !app_assoc, E. reflexivity.
    + specialize (IH j trace).
      destruct (resumeAt provider j pool trace) as [pool' trace']; simpl in *.
      rewrite !app_assoc.
      rewrite (Permutation_app_comm trace' (pendingOf s)), (Permutation_app_comm trace (pendingOf s)).
      rewrite <- !app_assoc. now apply Permutation_app_head.
Qed.

Lemma runSchedule_pending (schedule : list nat) (pool : list (Suspended A)) (trace : list Event) :
  Permutation
    (snd (runSchedule provider schedule pool trace)
       ++ flat_map pendingOf (fst (runSchedule provider schedule pool trace)))
    (trace ++ flat_map pendingOf pool).
Proof.
  revert pool trace. induction schedule as [| i schedule IH]; intros pool trace; simpl.
  - reflexivity.
  - pose proof (resumeAt_pending i pool trace) as P.
    destruct (resumeAt provider i pool trace) as [pool' trace']; simpl in *.
    now rewrite IH.
Qed.

Lemma startAll_pending (tasks : list (Task A)) (trace : list Event) :
  Permutation
    (snd (startAll tasks trace) ++ flat_map pendingOf (fst (startAll tasks trace)))
    (trace ++ flat_map (fun t => finish provider t []) tasks).
Proof.
  revert trace. induction tasks as [| t tasks IH]; intros trace; simpl.
  - reflexivity.
  - pose proof (runJob_finish t trace) as E.
    destruct (runJob t trace) as [s trace1]; simpl in *.
    specialize (IH trace1).
    destruct (startAll tasks trace1) as [pool trace2]; simpl in *.
    rewrite finishSuspended_app, finish_app in E.
    rewrite (app_assoc trace), <- E, <- app_assoc.
    rewrite app_assoc, (Permutation_app_comm trace2 (pendingOf s)), <- app_assoc.
    rewrite (app_assoc trace1), (Permutation_app_comm trace1 (pendingOf s)), <- app_assoc.
    now apply Permutation_app_head.
Qed.

(** Under every completion timing, [Promise.all] adds to the trace exactly
    the events of its tasks, in some order. *)
Lemma promiseAll_permutation (schedule : list nat) (tasks : list (Task A)) (trace : list Event) :
  Permutation (promiseAll provider schedule tasks trace)
    (trace ++ flat_map (fun t => finish provider t []) tasks).
Proof.
  unfold promiseAll.
  pose proof (startAll_pending tasks trace) as P1.
  destruct (startAll tasks trace) as [pool trace1]; simpl in *.
  pose proof (runSchedule_pending schedule pool trace1) as P2.
  destruct (runSchedule provider schedule pool trace1) as [pool' trace2]; simpl in *.
  rewrite drain_app. now rewrite P2.
Qed.

(** The events of the synchronous part stay in front. *)
Lemma promiseAll_extends_start (schedule : list nat) (tasks : list (Task A)) (trace : list Event) :
  exists more, promiseAll provider schedule tasks trace = snd (startAll tasks trace) ++ more.
Proof.
  unfold promiseAll.
  destruct (startAll tasks trace) as [pool trace1]; simpl.
  destruct (runSchedule_extends schedule pool trace1) as [m E].
  destruct (runSchedule provider schedule pool trace1) as [pool' trace2]; simpl in *.
  rewrite drain_app, E, <- app_assoc. eauto.
Qed.

(** With a single callback there is nothing to interleave. *)
Lemma promiseAll_single (schedule : list nat) (t : Task A) (trace : list Event) :
  promiseAll provider schedule [t] trace = finish provider t trace.
Proof.
  unfold promiseAll. simpl.
  rewrite <- (runJob_finish t trace).
  destruct (runJob t trace) as [s trace1]; simpl.
  revert s trace1. induction schedule as [| i schedule IH]; intros s trace1; simpl.
  - unfold drain; reflexivity.
  - destruct i as [| j]; simpl.
    + rewrite <- (resume_finish s trace1).
      destruct (resume provider s trace1) as [s' trace']; simpl. apply IH.
    + apply IH.
Qed.

Lemma runJob_synchronous (t : Task A) (trace : list Event) :
  synchronous t = true ->
  exists a, runJob t trace = (Settled a, finish provider t trace).
Proof.
  revert trace. induction t as [a | ds k IH | k IH | u pos k IH]; intros trace; simpl; try discriminate.
  - eauto.
  - intros H. apply IH; exact H.
Qed.

Definition isSettled (s : Suspended A) : bool :=
  match s with Settled _ => true | _ => false end.

Lemma resumeAt_settled (i : nat) (pool : list (Suspended A)) (trace : list Event) :
  forallb isSettled pool = true -> resumeAt provider i pool trace = (pool, trace).
Proof.
  revert i. induction pool as [| s pool IH]; intros i H; simpl in *; auto.
  apply andb_true_iff in H as [Hs Hp]. destruct i as [| j].
  - destruct s; simpl in *; try discriminate; reflexivity.
  - now rewrite IH.
Qed.

Lemma runSchedule_settled (schedule : list nat) (pool : list (Suspended A)) (trace : list Event) :
  forallb isSettled pool = true -> runSchedule provider schedule pool trace = (pool, trace).
Proof.
  induction schedule as [| i schedule IH]; intros H; simpl; auto.
  rewrite resumeAt_settled by exact H. now apply IH.
Qed.

Lemma drain_settled (pool : list (Suspended A)) (trace : list Event) :
  forallb isSettled pool = true -> drain provider pool trace = trace.
Proof.
  unfold drain. revert trace. induction pool as [| s pool IH]; intros trace H; simpl in *; auto.
  apply andb_true_iff in H as [Hs Hp]. destruct s; simpl in *; try discriminate. now apply IH.
Qed.

Lemma startAll_synchronous (tasks : list (Task A)) (trace : list Event) :
  forallb synchronous tasks = true ->
  forallb isSettled (fst (startAll tasks trace)) = true
  /\ snd (startAll tasks trace) = trace ++ flat_map (fun t => finish provider t []) tasks.
Proof.
  revert trace. induction tasks as [| t tasks IH]; intros trace H; simpl in *.
  - now rewrite app_nil_r.
  - apply andb_true_iff in H as [Ht Hts].
    destruct (runJob_synchronous t trace Ht) as [a E]. rewrite E.
    destruct (IH (finish provider t trace) Hts) as [S1 S2].
    destruct (startAll tasks (finish provider t trace)) as [pool trace2]; simpl in *.
    split; auto. rewrite S2, finish_app. now rewrite app_assoc.
Qed.

(** When no callback suspends, the events come in the order of the tasks,
    whatever the schedule. *)
Lemma promiseAll_synchronous (schedule : list nat) (tasks : list (Task A)) (trace : list Event) :
  forallb synchronous tasks = true ->
  promiseAll provider schedule tasks trace = trace ++ flat_map (fun t => finish provider t []) tasks.
Proof.
  intros H. unfold promiseAll.
  destruct (startAll_synchronous tasks trace H) as [S1 S2].
  destruct (startAll tasks trace) as [pool trace1]; simpl in *.
  rewrite runSchedule_settled by exact S1. now rewrite drain_settled.
Qed.

End JobFacts.

Lemma resultOf_app (t1 t2 : list Event) : resultOf (t1 ++ t2) = resultOf t1 ++ resultOf t2.
Proof. unfold resultOf. apply flat_map_app. Qed.

Lemma resultOf_pushed (ds : list DefinitionEntry) : resultOf (map Pushed ds) = ds.
Proof. induction ds as [| d ds IH]; simpl; congruence. Qed.

Lemma resultOf_permutation (t1 t2 : list Event) :
  Permutation t1 t2 -> Permutation (resultOf t1) (resultOf t2).
Proof. unfold resultOf. apply Permutation_flat_map. Qed.

Lemma providerCalls_app (t1 t2 : list Event) :
  providerCalls (t1 ++ t2) = providerCalls t1 ++ providerCalls t2.
Proof. unfold providerCalls. apply filter_app. Qed.

Lemma providerCalls_pushed (ds : list DefinitionEntry) : providerCalls (map Pushed ds) = [].
Proof. induction ds as [| d ds IH]; simpl; auto. Qed.

(** *** Callbacks that push at most once *)

Section Blocks.

Context {A : Type}.
Variable provider : Uri -> Position -> list DefinitionEntry.

(** The task pushes at most once on its way to its end. *)
Fixpoint pushesOnce (t : Task A) : Prop :=
  match t with
  | Return _ => True
  | Push _ k => resultOf (finish provider k []) = []
  | Await k => pushesOnce k
  | ExecuteDefinitionProvider u pos k => pushesOnce (k (provider u pos))
  end.

Definition suspendedPushesOnce (s : Suspended A) : Prop :=
  match s with
  | Settled _ => True
  | Resumable k => pushesOnce k
  | Pending u pos k => pushesOnce (k (provider u pos))
  end.

(** The entries of the block stand side by side in the result of the trace. *)
Definition contiguous (block : list DefinitionEntry) (trace : list Event) : Prop :=
  exists before after, resultOf trace = before ++ block ++ after.

(** The block of a callback is either still to be pushed, in one piece, or
    it stands in the result. *)
Definition blockKept (trace : list Event) (s : Suspended A) (block : list DefinitionEntry) : Prop :=
  (suspendedPushesOnce s /\ resultOf (pendingOf provider s) = block) \/ contiguous block trace.

Lemma contiguous_extends block trace more :
  contiguous block trace -> contiguous block (trace ++ more).
Proof.
  intros [before [after E]]. exists before, (after ++ resultOf more).
  rewrite resultOf_app, E. now rewrite <- !app_assoc.
Qed.

Lemma blockKept_extends trace more s block :
  blockKept trace s block -> blockKept (trace ++ more) s block.
Proof. intros [H | H]; [now left | right; now apply contiguous_extends]. Qed.

Lemma runJob_block (t : Task A) (trace : list Event) :
  pushesOnce t ->
  blockKept (snd (runJob t trace)) (fst (runJob t trace)) (resultOf (finish provider t [])).
Proof.
  destruct t as [a | ds k | k | u pos k]; simpl; intros H.
  - left. split; [exact I | reflexivity].
  - right. destruct (runJob_extends k (trace ++ map Pushed ds)) as [more E].
    rewrite E. exists (resultOf trace), (resultOf more).
    rewrite (finish_app provider), !resultOf_app, resultOf_pushed, H.
    now rewrite app_nil_r, <- app_assoc.
  - left. split; [exact H | reflexivity].
  - left. split; [exact H |]. unfold pendingOf. simpl.
    rewrite (finish_app provider (k (provider u pos)) [_]).
    now rewrite resultOf_app.
Qed.

Lemma resume_block (s : Suspended A) (trace : list Event) (block : list DefinitionEntry) :
  blockKept trace s block ->
  blockKept (snd (resume provider s trace)) (fst (resume provider s trace)) block.
Proof.
  intros [[H <-] | H].
  - destruct s as [a | k | u pos k]; simpl.
    + left. split; [exact I | reflexivity].
    + apply runJob_block. exact H.
    + apply runJob_block. exact H.
  - right. destruct (resume_extends provider s trace) as [more ->].
    now apply contiguous_extends.
Qed.

Lemma resumeAt_blocks (i : nat) (pool : list (Suspended A)) (trace : list Event)
      (blocks : list (list DefinitionEntry)) :
  Forall2 (blockKept trace) pool blocks ->
  Forall2 (blockKept (snd (resumeAt provider i pool trace)))
    (fst (resumeAt provider i pool trace)) blocks.
Proof.
  intros F. revert i. induction F as [| s block pool blocks Hs F IH]; intros i; simpl.
  - constructor.
  - destruct i as [| j].
    + pose proof (resume_block s trace block Hs) as Hs'.
      destruct (resume_extends provider s trace) as [more E].
      destruct (resume provider s trace) as [s' trace']; simpl in *. subst trace'.
      constructor; [exact Hs' |].
      clear IH. induction F; constructor; auto using blockKept_extends.
    + specialize (IH j).
      destruct (resumeAt_extends provider j pool trace) as [more E].
      destruct (resumeAt provider j pool trace) as [pool' trace']; simpl in *. subst trace'.
      constructor; [now apply blockKept_extends | exact IH].
Qed.

Lemma runSchedule_blocks (schedule : list nat) (pool : list (Suspended A)) (trace : list Event)
      (blocks : list (list DefinitionEntry)) :
  Forall2 (blockKept trace) pool blocks ->
  Forall2 (blockKept (snd (runSchedule provider schedule pool trace)))
    (fst (runSchedule provider schedule pool trace)) blocks.
Proof.
  revert pool trace. induction schedule as [| i schedule IH]; intros pool trace F; simpl.
  - exact F.
  - pose proof (resumeAt_blocks i pool trace blocks F) as F'.
    destruct (resumeAt provider i pool trace) as [pool' trace']; simpl in *.
    now apply IH.
Qed.

Lemma startAll_extends (tasks : list (Task A)) (trace : list Event) :
  exists more, snd (startAll tasks trace) = trace ++ more.
Proof.
  revert trace. induction tasks as [| t tasks IH]; intros trace; simpl.
  - exists []. now rewrite app_nil_r.
  - destruct (runJob_extends t trace) as [m1 E1].
    destruct (runJob t trace) as [s trace1]; simpl in *. subst trace1.
    destruct (IH (trace ++ m1)) as [m2 E2].
    destruct (startAll tasks (trace ++ m1)) as [pool trace2]; simpl in *. subst trace2.
    exists (m1 ++ m2). now rewrite app_assoc.
Qed.

Lemma startAll_blocks (tasks : list (Task A)) (trace : list Event) :
  Forall pushesOnce tasks ->
  Forall2 (blockKept (snd (startAll tasks trace))) (fst (startAll tasks trace))
    (map (fun t => resultOf (finish provider t [])) tasks).
Proof.
  intros F. revert trace. induction F as [| t tasks Ht F IH]; intros trace; simpl.
  - constructor.
  - pose proof (runJob_block t trace Ht) as Hs.
    destruct (runJob t trace) as [s trace1]; simpl in *.
    specialize (IH trace1).
    destruct (startAll_extends tasks trace1) as [more E].
    destruct (startAll tasks trace1) as [pool trace2]; simpl in *. subst trace2.
    constructor; [now apply blockKept_extends | exact IH].
Qed.

Lemma drain_blocks (pool : list (Suspended A)) (trace events : list Event)
      (blocks : list (list DefinitionEntry)) :
  Forall2 (blockKept trace) pool blocks ->
  forall block, In block blocks ->
  contiguous block ((trace ++ events) ++ flat_map (pendingOf provider) pool).
Proof.
  intros F. revert events. induction F as [| s b pool blocks Hs F IH]; intros events block Hin.
  - destruct Hin.
  - simpl. destruct Hin as [<- | Hin].
    + destruct Hs as [[_ <-] | H].
      * exists (resultOf trace ++ resultOf events),
               (resultOf (flat_map (pendingOf provider) pool)).
        rewrite !resultOf_app. now rewrite <- !app_assoc.
      * rewrite <- app_assoc. now apply contiguous_extends.
    + rewrite app_assoc, <- (app_assoc trace). now apply IH.
Qed.

(** Under every completion timing the pushes of a callback that pushes at
    most once stand side by side in the result. *)
Lemma promiseAll_blocks (schedule : list nat) (tasks : list (Task A)) (trace : list Event) :
  Forall pushesOnce tasks ->
  forall t, In t tasks ->
  contiguous (resultOf (finish provider t [])) (promiseAll provider schedule tasks trace).
Proof.
  intros F t Hin. unfold promiseAll.
  pose proof (startAll_blocks tasks trace F) as B.
  destruct (startAll tasks trace) as [pool trace1]; simpl in *.
  apply (runSchedule_blocks schedule) in B.
  destruct (runSchedule provider schedule pool trace1) as [pool' trace2]; simpl in *.
  rewrite drain_app, <- (app_nil_r trace2).
  apply (drain_blocks pool' trace2 [] _ B).
  apply in_map_iff. eauto.
Qed.

End Blocks.

End Async.

(** ** client/src/language/middlewareDefinition.ts *)
Module DefinitionMiddleware.

Import Utils Async.

(** [ProviderResult<Definition | DefinitionLink[]>]: what a definition
    provider (and the middleware) may return. *)
Inductive ProviderResult :=
| IsUndefined
| IsNull
| IsSingle (l : Location)
| IsArray (ds : list DefinitionEntry).

(** The test of the first [if] of [middlewareProvideDefinition]:
    [(Array.isArray(nextResult) && nextResult.length !== 0) ||
     (!Array.isArray(nextResult) && nextResult !== undefined)]. *)
Definition returnsNextResult (nextResult : ProviderResult) : bool :=
  match nextResult with
  | IsArray ds => negb (Nat.eqb (List.length ds) 0)
  | IsUndefined => false
  | IsNull => true
  | IsSingle _ => true
  end.

(** The host provider found something: one location, or a non-empty array. *)
Definition nonEmpty (r : ProviderResult) : bool :=
  match r with
  | IsSingle _ => true
  | IsArray (_ :: _) => true
  | _ => false
  end.

Definition dRange : Range := newRange 2 0 2 1.
Definition dataSmartPosition : Position := mkPosition 2 19.

Definition eRange : Range := newRange 3 0 3 1.
Definition eventPosition : Position := mkPosition 3 14.

(** Computations of the middleware: the trace of events is threaded through. *)
Definition M (A : Type) : Type := list Event -> A * list Event.

Definition ret {A : Type} (a : A) : M A := fun trace => (a, trace).

Definition mbind {A B : Type} (m : M A) (f : A -> M B) : M B :=
  fun trace => let (a, trace') := m trace in f a trace'.

Definition emit (e : Event) : M unit := fun trace => (tt, trace ++ [e]).

Notation "x <- m ;; k" := (mbind m (fun x => k))
  (at level 61, m at next level, right associativity).
Notation "m ;;; k" := (mbind m (fun _ => k))
  (at level 61, right associativity).

Section Middleware.

(** The collaborators of the middleware. *)
Variable next : TextDocument -> Position -> ProviderResult.
Variable getEmbeddedLanguageTypeOnPosition : string -> Position -> option string.
Variable getEmbeddedLanguageDocInfos : Uri -> string -> option EmbeddedLanguageDocInfos.
Variable openTextDocument : Uri -> TextDocument.
Variable getEmbeddedLanguageDocPosition :
  TextDocument -> TextDocument -> list Z -> Position -> Position.
Variable getOriginalDocRange :
  TextDocument -> TextDocument -> list Z -> Range -> option Range.
Variable executeDefinitionProvider : Uri -> Position -> list DefinitionEntry.

(** Map the range of the definition from the embedded language document to
    the original document.  The source updates the entry in place; the
    updated entry is returned. *)
Definition ajustDefinitionRange
  (definition : DefinitionEntry)
  (originalTextDocument embeddedLanguageTextDocument : TextDocument)
  (characterIndexes : list Z) : DefinitionEntry :=
  match definition with
  | IsLocation l =>
      let newRange :=
        getOriginalDocRange originalTextDocument embeddedLanguageTextDocument characterIndexes (range l) in
      match newRange with
      | Some r => IsLocation (mkLocation (uri l) r)
      | None => definition
      end
  | IsLocationLink l =>
      let newTargetRange :=
        getOriginalDocRange originalTextDocument embeddedLanguageTextDocument characterIndexes (targetRange l) in
      let l1 :=
        match newTargetRange with
        | Some r => mkLocationLink (originSelectionRange l) (targetUri l) r (targetSelectionRange l)
        | None => l
        end in
      match targetSelectionRange l1 with
      | Some selection =>
          let newTargetSelectionRange :=
            getOriginalDocRange originalTextDocument embeddedLanguageTextDocument characterIndexes selection in
          match newTargetSelectionRange with
          | Some _ =>
              (* definition.targetSelectionRange = newTargetRange *)
              IsLocationLink (mkLocationLink (originSelectionRange l1) (targetUri l1) (targetRange l1) newTargetRange)
          | None => IsLocationLink l1
          end
      | None => IsLocationLink l1
      end
  end.

(** Redirect a definition to an other definition. *)
Definition redirectDefinition
  (initialDefinition : DefinitionEntry) (testedRange : Range) (redirectedPosition : Position)
  : Task (option (list DefinitionEntry)) :=
  if negb (checkIsDefinitionRangeEqual initialDefinition testedRange) then Return None
  else
    let u := getDefinitionUri initialDefinition in
    ExecuteDefinitionProvider u redirectedPosition (fun redirectedResult =>
      Return (Some (map (convertToSameDefinitionType initialDefinition) redirectedResult))).

(** Handle [d] in [d.getVar('')]: [return await redirectDefinition(...)]. *)
Definition getDefinitionOfD (definition : DefinitionEntry) : Task (option (list DefinitionEntry)) :=
  await (redirectDefinition definition dRange dataSmartPosition).

(** Handle [e] in [e.data.getVar('')]. *)
Definition getDefinitionOfE (definition : DefinitionEntry) : Task (option (list DefinitionEntry)) :=
  await (redirectDefinition definition eRange eventPosition).

Definition redirectionFunctions : list (DefinitionEntry -> Task (option (list DefinitionEntry))) :=
  [getDefinitionOfD; getDefinitionOfE].

(** The [for ... of redirectionFunctions] loop of the callback; [true] when
    the callback has pushed a redirection and returned. *)
Fixpoint tryRedirections
  (functions : list (DefinitionEntry -> Task (option (list DefinitionEntry))))
  (definition : DefinitionEntry) : Task bool :=
  match functions with
  | [] => Return false
  | redirectionFunction :: functions' =>
      bind (await (redirectionFunction definition)) (fun redirection =>
        match redirection with
        | Some ds => Push ds (Return true)
        | None => tryRedirections functions' definition
        end)
  end.

(** The callback that [processDefinitions] maps over the definitions. *)
Definition processDefinition
  (originalTextDocument embeddedLanguageTextDocument : TextDocument)
  (embeddedLanguageDocInfos : EmbeddedLanguageDocInfos)
  (definition : DefinitionEntry) : Task unit :=
  if negb (checkIsDefinitionUriEqual definition (infos_uri embeddedLanguageDocInfos)) then
    (* only definitions located on the embedded language documents need ajustments *)
    Push [definition] (Return tt)
  else
    bind (if String.eqb (language embeddedLanguageDocInfos) "python"
          then tryRedirections redirectionFunctions definition
          else Return false)
      (fun redirected =>
         if (redirected : bool) then Return tt
         else
           let definition1 := changeDefinitionUri definition (doc_uri originalTextDocument) in
           let definition2 :=
             ajustDefinitionRange definition1 originalTextDocument embeddedLanguageTextDocument
               (characterIndexes embeddedLanguageDocInfos) in
           Push [definition2] (Return tt)).

(** [processDefinitions]: [result] starts empty, the callbacks run under
    [Promise.all], and [result] is returned once all have settled.  The
    completion timing is the parameter [schedule]. *)
Definition processDefinitions
  (schedule : list nat)
  (definitions : list DefinitionEntry)
  (originalTextDocument embeddedLanguageTextDocument : TextDocument)
  (embeddedLanguageDocInfos : EmbeddedLanguageDocInfos) : M (list DefinitionEntry) :=
  fun trace =>
    let callbacks :=
      map (processDefinition originalTextDocument embeddedLanguageTextDocument embeddedLanguageDocInfos)
        definitions in
    let run := promiseAll executeDefinitionProvider schedule callbacks [] in
    (resultOf run, trace ++ providerCalls run).

Definition checkIsArrayLocation (array : list DefinitionEntry) : bool :=
  match array with
  | IsLocation _ :: _ => true
  | _ => false
  end.

Definition middlewareProvideDefinition
  (schedule : list nat) (document : TextDocument) (position : Position) : M ProviderResult :=
  emit (CalledNext (doc_uri document) position) ;;;
  let nextResult := next document position in
  if returnsNextResult nextResult then ret nextResult
  else
    emit (CalledGetEmbeddedLanguageTypeOnPosition (doc_uri document) position) ;;;
    match getEmbeddedLanguageTypeOnPosition (doc_uri document) position with
    | None => ret IsUndefined
    | Some embeddedLanguageType =>
        match getEmbeddedLanguageDocInfos (doc_uri document) embeddedLanguageType with
        | None => ret IsUndefined
        | Some embeddedLanguageDocInfos =>
            emit (CalledOpenTextDocument (infos_uri embeddedLanguageDocInfos)) ;;;
            let embeddedLanguageTextDocument := openTextDocument (infos_uri embeddedLanguageDocInfos) in
            let adjustedPosition :=
              getEmbeddedLanguageDocPosition document embeddedLanguageTextDocument
                (characterIndexes embeddedLanguageDocInfos) position in
            emit (CalledExecuteDefinitionProvider (infos_uri embeddedLanguageDocInfos) adjustedPosition) ;;;
            let tempResult :=
              executeDefinitionProvider (infos_uri embeddedLanguageDocInfos) adjustedPosition in
            if checkIsArrayLocation tempResult then
              result <- processDefinitions schedule tempResult document
                          embeddedLanguageTextDocument embeddedLanguageDocInfos ;;
              ret (IsArray result)
            else
              result <- processDefinitions schedule tempResult document
                          embeddedLanguageTextDocument embeddedLanguageDocInfos ;;
              ret (IsArray result)
        end
    end.

(** The events of one entry's callback, run on its own. *)
Definition entryTrace
  (originalTextDocument embeddedLanguageTextDocument : TextDocument)
  (embeddedLanguageDocInfos : EmbeddedLanguageDocInfos)
  (definition : DefinitionEntry) : list Event :=
  finish executeDefinitionProvider
    (processDefinition originalTextDocument embeddedLanguageTextDocument embeddedLanguageDocInfos definition) [].

(** The pushes of one entry's callback, run on its own. *)
Definition entryResult
  (originalTextDocument embeddedLanguageTextDocument : TextDocument)
  (embeddedLanguageDocInfos : EmbeddedLanguageDocInfos)
  (definition : DefinitionEntry) : list DefinitionEntry :=
  resultOf (entryTrace originalTextDocument embeddedLanguageTextDocument embeddedLanguageDocInfos definition).

(** The entry is taken by one of the redirection rules. *)
Definition isRedirected (embeddedLanguageDocInfos : EmbeddedLanguageDocInfos) (definition : DefinitionEntry) : bool :=
  checkIsDefinitionUriEqual definition (infos_uri embeddedLanguageDocInfos)
  && String.eqb (language embeddedLanguageDocInfos) "python"
  && (checkIsDefinitionRangeEqual definition dRange || checkIsDefinitionRangeEqual definition eRange).

(** The callback of the entry suspends before it pushes. *)
Definition isDeferred (embeddedLanguageDocInfos : EmbeddedLanguageDocInfos) (definition : DefinitionEntry) : bool :=
  checkIsDefinitionUriEqual definition (infos_uri embeddedLanguageDocInfos)
  && String.eqb (language embeddedLanguageDocInfos) "python".

(** *** What one callback does *)

Lemma dRange_not_eRange (definition : DefinitionEntry) :
  checkIsDefinitionRangeEqual definition eRange = true ->
  checkIsDefinitionRangeEqual definition dRange = false.
Proof.
  unfold checkIsDefinitionRangeEqual. intros H. apply Range_isEqual_spec in H.
  rewrite H. reflexivity.
Qed.

Lemma processDefinition_elsewhere orig emb infos d :
  checkIsDefinitionUriEqual d (infos_uri infos) = false ->
  entryTrace orig emb infos d = [Pushed d].
Proof. intros H. unfold entryTrace, processDefinition. rewrite H. reflexivity. Qed.

Lemma processDefinition_d orig emb infos d :
  checkIsDefinitionUriEqual d (infos_uri infos) = true ->
  language infos = "python" ->
  checkIsDefinitionRangeEqual d dRange = true ->
  entryTrace orig emb infos d =
    CalledExecuteDefinitionProvider (getDefinitionUri d) dataSmartPosition
    :: map Pushed (map (convertToSameDefinitionType d)
                     (executeDefinitionProvider (getDefinitionUri d) dataSmartPosition)).
Proof.
  intros Hu Hl Hr.
  unfold entryTrace, processDefinition, redirectionFunctions, tryRedirections,
    getDefinitionOfD, redirectDefinition.
  rewrite Hu, Hl, Hr. reflexivity.
Qed.

Lemma processDefinition_e orig emb infos d :
  checkIsDefinitionUriEqual d (infos_uri infos) = true ->
  language infos = "python" ->
  checkIsDefinitionRangeEqual d eRange = true ->
  entryTrace orig emb infos d =
    CalledExecuteDefinitionProvider (getDefinitionUri d) eventPosition
    :: map Pushed (map (convertToSameDefinitionType d)
                     (executeDefinitionProvider (getDefinitionUri d) eventPosition)).
Proof.
  intros Hu Hl Hr.
  unfold entryTrace, processDefinition, redirectionFunctions, tryRedirections,
    getDefinitionOfD, getDefinitionOfE, redirectDefinition.
  rewrite Hu, Hl, (dRange_not_eRange d Hr), Hr. reflexivity.
Qed.

Lemma processDefinition_ajusted orig emb infos d :
  checkIsDefinitionUriEqual d (infos_uri infos) = true ->
  isRedirected infos d = false ->
  entryTrace orig emb infos d =
    [Pushed (ajustDefinitionRange (changeDefinitionUri d (doc_uri orig)) orig emb (characterIndexes infos))].
Proof.
  intros Hu Hr. unfold isRedirected in Hr. rewrite Hu in Hr.
  unfold entryTrace, processDefinition, redirectionFunctions, tryRedirections,
    getDefinitionOfD, getDefinitionOfE, redirectDefinition.
  rewrite Hu.
  destruct (String.eqb (language infos) "python"); [| reflexivity].
  apply orb_false_iff in Hr as [Hd He].
  rewrite Hd, He. reflexivity.
Qed.

(** Every callback pushes exactly once or not at all before it ends. *)
Lemma processDefinition_synchronous orig emb infos d :
  synchronous (processDefinition orig emb infos d) = negb (isDeferred infos d).
Proof.
  unfold processDefinition, isDeferred, redirectionFunctions, tryRedirections,
    getDefinitionOfD, redirectDefinition.
  destruct (checkIsDefinitionUriEqual d (infos_uri infos)); [| reflexivity].
  destruct (String.eqb (language infos) "python"); [| reflexivity].
  destruct (checkIsDefinitionRangeEqual d dRange); reflexivity.
Qed.

(** A callback that suspends has pushed nothing when it suspends. *)
Lemma processDefinition_start orig emb infos d trace :
  resultOf (snd (runJob (processDefinition orig emb infos d) trace)) =
  resultOf trace ++ (if isDeferred infos d then [] else entryResult orig emb infos d).
Proof.
  unfold entryResult, entryTrace, processDefinition, isDeferred, redirectionFunctions,
    tryRedirections, getDefinitionOfD, redirectDefinition.
  destruct (checkIsDefinitionUriEqual d (infos_uri infos)).
  - destruct (String.eqb (language infos) "python").
    + destruct (checkIsDefinitionRangeEqual d dRange); cbn.
      * rewrite resultOf_app. cbn. reflexivity.
      * now rewrite app_nil_r.
    + cbn. rewrite resultOf_app. reflexivity.
  - cbn. rewrite resultOf_app. reflexivity.
Qed.

Lemma startAll_result orig emb infos definitions trace :
  resultOf (snd (startAll (map (processDefinition orig emb infos) definitions) trace)) =
  resultOf trace
  ++ flat_map (entryResult orig emb infos) (filter (fun d => negb (isDeferred infos d)) definitions).
Proof.
  revert trace. induction definitions as [| d ds IH]; intros trace; simpl.
  - now rewrite app_nil_r.
  - pose proof (processDefinition_start orig emb infos d trace) as E.
    destruct (runJob (processDefinition orig emb infos d) trace) as [s trace1]; simpl in *.
    specialize (IH trace1).
    destruct (startAll (map (processDefinition orig emb infos) ds) trace1) as [pool trace2]; simpl in *.
    rewrite IH, E. destruct (isDeferred infos d); simpl.
    + now rewrite app_nil_r.
    + now rewrite <- !app_assoc.
Qed.

Lemma flat_map_finish orig emb infos definitions :
  resultOf (flat_map (fun t => finish executeDefinitionProvider t [])
              (map (processDefinition orig emb infos) definitions))
  = flat_map (entryResult orig emb infos) definitions.
Proof.
  induction definitions as [| d ds IH]; simpl; auto.
  rewrite resultOf_app, IH. reflexivity.
Qed.

Lemma flat_map_partition {X Y : Type} (f : X -> list Y) (p : X -> bool) (l : list X) :
  Permutation (flat_map f l)
    (flat_map f (filter (fun x => negb (p x)) l) ++ flat_map f (filter p l)).
Proof.
  induction l as [| x l IH]; simpl; auto.
  destruct (p x); simpl.
  - rewrite IH. rewrite !app_assoc.
    apply Permutation_app_tail. apply Permutation_app_comm.
  - rewrite <- app_assoc. now apply Permutation_app_head.
Qed.

(** The result of [processDefinitions] under any completion timing: the
    entries of the callbacks, each once. *)
Lemma processDefinitions_permutation schedule definitions orig emb infos trace :
  Permutation (fst (processDefinitions schedule definitions orig emb infos trace))
    (flat_map (entryResult orig emb infos) definitions).
Proof.
  unfold processDefinitions. simpl.
  rewrite <- flat_map_finish.
  apply resultOf_permutation.
  apply (promiseAll_permutation executeDefinitionProvider schedule _ []).
Qed.

Lemma processDefinitions_single schedule d orig emb infos trace :
  processDefinitions schedule [d] orig emb infos trace =
  (entryResult orig emb infos d, trace ++ providerCalls (entryTrace orig emb infos d)).
Proof.
  unfold processDefinitions, entryResult, entryTrace. simpl.
  now rewrite promiseAll_single.
Qed.

(** The order of the result of [processDefinitions]: the entries of the
    callbacks that do not suspend come first, in the order of the input, and
    the entries of the suspended callbacks follow in the order in which they
    are resumed. *)
Lemma processDefinitions_order schedule definitions orig emb infos trace :
  exists later,
    fst (processDefinitions schedule definitions orig emb infos trace) =
      flat_map (entryResult orig emb infos) (filter (fun d => negb (isDeferred infos d)) definitions)
      ++ later
    /\ Permutation later
         (flat_map (entryResult orig emb infos) (filter (isDeferred infos) definitions)).
Proof.
  pose proof (processDefinitions_permutation schedule definitions orig emb infos trace) as P.
  unfold processDefinitions in *. simpl in *.
  destruct (promiseAll_extends_start executeDefinitionProvider schedule
              (map (processDefinition orig emb infos) definitions) []) as [more E].
  rewrite E, resultOf_app, startAll_result in *. simpl in *.
  exists (resultOf more). split; [reflexivity |].
  rewrite (flat_map_partition (entryResult orig emb infos) (isDeferred infos) definitions) in P.
  now apply Permutation_app_inv_l in P.
Qed.

Lemma processDefinitions_in_order schedule definitions orig emb infos trace :
  forallb (fun d => negb (isDeferred infos d)) definitions = true ->
  fst (processDefinitions schedule definitions orig emb infos trace) =
  flat_map (entryResult orig emb infos) definitions.
Proof.
  intros H. unfold processDefinitions. simpl.
  rewrite promiseAll_synchronous.
  - simpl. apply flat_map_finish.
  - rewrite forallb_forall in *. intros t Ht. apply in_map_iff in Ht as [d [<- Hd]].
    rewrite processDefinition_synchronous. now apply H.
Qed.

Lemma entryResult_one orig emb infos d :
  isRedirected infos d = false -> List.length (entryResult orig emb infos d) = 1%nat.
Proof.
  intros H. unfold entryResult.
  destruct (checkIsDefinitionUriEqual d (infos_uri infos)) eqn:Hu.
  - now rewrite processDefinition_ajusted.
  - now rewrite processDefinition_elsewhere.
Qed.

Lemma ajustDefinitionRange_miss orig emb indexes d :
  getOriginalDocRange orig emb indexes (getDefinitionRange d) = None ->
  getDefinitionUri (ajustDefinitionRange d orig emb indexes) = getDefinitionUri d
  /\ getDefinitionRange (ajustDefinitionRange d orig emb indexes) = getDefinitionRange d
  /\ sameShape d (ajustDefinitionRange d orig emb indexes) = true.
Proof.
  destruct d as [l | l]; simpl; intros H; rewrite H; simpl; auto.
  destruct (targetSelectionRange l) as [selection |]; simpl; auto.
  destruct (getOriginalDocRange orig emb indexes selection); simpl; auto.
Qed.

Lemma changeDefinitionUri_spec d u :
  getDefinitionUri (changeDefinitionUri d u) = u
  /\ getDefinitionRange (changeDefinitionUri d u) = getDefinitionRange d
  /\ sameShape d (changeDefinitionUri d u) = true.
Proof. destruct d; simpl; auto. Qed.

Lemma sameShape_trans a b c : sameShape a b = true -> sameShape b c = true -> sameShape a c = true.
Proof. destruct a, b, c; simpl; auto; discriminate. Qed.

Lemma convertToSameDefinitionType_shape reference d :
  sameShape reference (convertToSameDefinitionType reference d) = true.
Proof. destruct reference, d; reflexivity. Qed.

(** *** The claims on the definition middleware *)

(** C3: when the host definition provider yields a non-empty result (a
    location, or an array that is not empty), [middlewareProvideDefinition]
    returns this very result and the only event of the request is the call of
    the host provider: the embedded definition provider is not called.
    Conversely, a request in which the embedded provider was called is one in
    which the host provider found nothing ([undefined] or the empty array). *)
Theorem host_result_returned_verbatim schedule document position trace :
  nonEmpty (next document position) = true ->
  fst (middlewareProvideDefinition schedule document position trace) = next document position
  /\ snd (middlewareProvideDefinition schedule document position trace)
     = trace ++ [CalledNext (doc_uri document) position]
  /\ providerCalls (snd (middlewareProvideDefinition schedule document position trace))
     = providerCalls trace
  /\ (forall schedule' document' position' trace',
        providerCalls (snd (middlewareProvideDefinition schedule' document' position' trace'))
          <> providerCalls trace' ->
        next document' position' = IsUndefined \/ next document' position' = IsArray []).
Proof.
  intros H.
  assert (R : returnsNextResult (next document position) = true).
  { destruct (next document position) as [| | l | [| d ds]]; simpl in *; auto; discriminate. }
  unfold middlewareProvideDefinition, mbind, emit, ret. rewrite R. simpl.
  repeat split.
  - rewrite providerCalls_app. simpl. now rewrite app_nil_r.
  - intros schedule' document' position' trace'.
    unfold middlewareProvideDefinition, mbind, emit, ret.
    destruct (next document' position') as [| | l | [| d ds]]; simpl; auto;
      rewrite providerCalls_app; simpl; rewrite app_nil_r; intros C; now contradiction C.
Qed.

(** C6: for the python embedded document, an entry whose target URI is the
    virtual document and whose range equals a trigger range ([dRange] with
    [dataSmartPosition], [eRange] with [eventPosition]) is replaced by the
    answer of the embedded definition provider at the redirect position, each
    answer converted with [convertToSameDefinitionType] and so of the shape
    of the entry; the provider is asked once, on the virtual document, and
    its answers are not processed again.  In a longer list the redirected answers take the place
    of the entry among the results of the other entries. *)
Theorem redirection_hop orig emb infos d trigger target :
  checkIsDefinitionUriEqual d (infos_uri infos) = true ->
  language infos = "python" ->
  (trigger, target) = (dRange, dataSmartPosition) \/ (trigger, target) = (eRange, eventPosition) ->
  checkIsDefinitionRangeEqual d trigger = true ->
  (forall schedule trace,
      processDefinitions schedule [d] orig emb infos trace =
      (map (convertToSameDefinitionType d) (executeDefinitionProvider (getDefinitionUri d) target),
       trace ++ [CalledExecuteDefinitionProvider (getDefinitionUri d) target]))
  /\ (forall schedule before after trace,
        Permutation
          (fst (processDefinitions schedule (before ++ d :: after) orig emb infos trace))
          (flat_map (entryResult orig emb infos) before
           ++ map (convertToSameDefinitionType d) (executeDefinitionProvider (getDefinitionUri d) target)
           ++ flat_map (entryResult orig emb infos) after))
  /\ Forall (fun r => sameShape d r = true)
       (map (convertToSameDefinitionType d) (executeDefinitionProvider (getDefinitionUri d) target))
  /\ getDefinitionUri d = infos_uri infos.
Proof.
  intros Hu Hl Hrule Hr.
  assert (E : entryTrace orig emb infos d =
              CalledExecuteDefinitionProvider (getDefinitionUri d) target
              :: map Pushed (map (convertToSameDefinitionType d)
                               (executeDefinitionProvider (getDefinitionUri d) target))).
  { destruct Hrule as [Hrule | Hrule]; injection Hrule as -> ->.
    - now apply processDefinition_d.
    - now apply processDefinition_e. }
  assert (R : entryResult orig emb infos d =
              map (convertToSameDefinitionType d) (executeDefinitionProvider (getDefinitionUri d) target)).
  { unfold entryResult. rewrite E. simpl. apply resultOf_pushed. }
  repeat split.
  - intros schedule trace. rewrite processDefinitions_single, R, E. simpl.
    fold (providerCalls (map Pushed (map (convertToSameDefinitionType d)
            (executeDefinitionProvider (getDefinitionUri d) target)))).
    now rewrite providerCalls_pushed.
  - intros schedule before after trace.
    rewrite processDefinitions_permutation, flat_map_app. simpl. now rewrite R.
  - apply Forall_forall. intros r Hin. apply in_map_iff in Hin as [x [<- _]].
    apply convertToSameDefinitionType_shape.
  - now apply String.eqb_eq.
Qed.

(** C1 (as the code has it): an entry whose target URI is the virtual
    document, which no redirection rule takes, and whose target range
    [getOriginalDocRange] cannot translate is kept: the result holds one
    entry for it, of the same shape, with the URI of the original document
    and the range it came with.  When no entry is redirected the result is as
    long as the input. *)
Theorem untranslated_entry_is_kept schedule definitions orig emb infos trace d :
  In d definitions ->
  checkIsDefinitionUriEqual d (infos_uri infos) = true ->
  isRedirected infos d = false ->
  getOriginalDocRange orig emb (characterIndexes infos) (getDefinitionRange d) = None ->
  (exists kept,
      entryResult orig emb infos d = [kept]
      /\ In kept (fst (processDefinitions schedule definitions orig emb infos trace))
      /\ getDefinitionUri kept = doc_uri orig
      /\ getDefinitionRange kept = getDefinitionRange d
      /\ sameShape d kept = true)
  /\ ((forall d', In d' definitions -> isRedirected infos d' = false) ->
      List.length (fst (processDefinitions schedule definitions orig emb infos trace))
      = List.length definitions).
Proof.
  intros Hin Hu Hr Hmiss.
  pose proof (processDefinitions_permutation schedule definitions orig emb infos trace) as P.
  split.
  - exists (ajustDefinitionRange (changeDefinitionUri d (doc_uri orig)) orig emb (characterIndexes infos)).
    assert (E : entryResult orig emb infos d =
                [ajustDefinitionRange (changeDefinitionUri d (doc_uri orig)) orig emb (characterIndexes infos)]).
    { unfold entryResult. now rewrite processDefinition_ajusted. }
    destruct (changeDefinitionUri_spec d (doc_uri orig)) as [C1 [C2 C3]].
    destruct (ajustDefinitionRange_miss orig emb (characterIndexes infos)
                (changeDefinitionUri d (doc_uri orig))) as [A1 [A2 A3]].
    { now rewrite C2. }
    repeat split.
    + exact E.
    + apply (Permutation_in _ (Permutation_sym P)).
      apply in_flat_map. exists d. split; auto. rewrite E. now left.
    + congruence.
    + congruence.
    + eapply sameShape_trans; eauto.
  - intros Hall. rewrite (Permutation_length P).
    clear P Hin. induction definitions as [| x xs IH]; simpl; auto.
    rewrite length_app, entryResult_one, IH; auto.
    + intros d' Hd'. apply Hall. now right.
    + apply Hall. now left.
Qed.

(** C7 (as the code has it): under every completion timing the result of
    [processDefinitions] holds the entries of the callbacks, each once (it is
    a permutation of the per-entry results in input order); the entries of
    the callbacks that do not suspend (target URI not the virtual document,
    or embedded language not python) come first in input order, the entries
    of the suspended callbacks follow in the order of their completion; when
    no callback suspends the result is in input order. *)
Theorem result_order_is_completion_order schedule definitions orig emb infos trace :
  Permutation (fst (processDefinitions schedule definitions orig emb infos trace))
    (flat_map (entryResult orig emb infos) definitions)
  /\ (exists later,
        fst (processDefinitions schedule definitions orig emb infos trace) =
          flat_map (entryResult orig emb infos)
            (filter (fun d => negb (isDeferred infos d)) definitions) ++ later
        /\ Permutation later
             (flat_map (entryResult orig emb infos) (filter (isDeferred infos) definitions)))
  /\ (forallb (fun d => negb (isDeferred infos d)) definitions = true ->
      fst (processDefinitions schedule definitions orig emb infos trace) =
      flat_map (entryResult orig emb infos) definitions).
Proof.
  split; [apply processDefinitions_permutation |].
  split; [apply processDefinitions_order | apply processDefinitions_in_order].
Qed.

(** In [ajustDefinitionRange] the target selection range of a LocationLink,
    when it can be translated, is overwritten with the translation of the
    target range. *)
Lemma ajustDefinitionRange_selection orig emb indexes l selection translated :
  targetSelectionRange l = Some selection ->
  getOriginalDocRange orig emb indexes selection = Some translated ->
  exists l',
    ajustDefinitionRange (IsLocationLink l) orig emb indexes = IsLocationLink l'
    /\ targetSelectionRange l' = getOriginalDocRange orig emb indexes (targetRange l).
Proof.
  intros Hs Ht. simpl.
  destruct (getOriginalDocRange orig emb indexes (targetRange l)) as [r |]; simpl;
    rewrite Hs, Ht; eexists; split; reflexivity.
Qed.

(** *** Further properties of the definition middleware *)

Lemma providerCalls_permutation (t1 t2 : list Event) :
  Permutation t1 t2 -> Permutation (providerCalls t1) (providerCalls t2).
Proof.
  unfold providerCalls. induction 1 as [| e l l' P IH | e e' l | l l' l'' P1 IH1 P2 IH2]; simpl.
  - constructor.
  - destruct (isProviderCall e); auto.
  - destruct (isProviderCall e), (isProviderCall e'); auto. apply perm_swap.
  - now transitivity (filter isProviderCall l').
Qed.

Lemma providerCalls_flat_map {X : Type} (f : X -> list Event) (l : list X) :
  providerCalls (flat_map f l) = flat_map (fun x => providerCalls (f x)) l.
Proof.
  induction l as [| x l IH]; simpl; auto. now rewrite providerCalls_app, IH.
Qed.

Lemma ajustDefinitionRange_uri orig emb indexes d :
  getDefinitionUri (ajustDefinitionRange d orig emb indexes) = getDefinitionUri d.
Proof.
  destruct d as [l | l]; simpl.
  - destruct (getOriginalDocRange orig emb indexes (range l)); reflexivity.
  - destruct (getOriginalDocRange orig emb indexes (targetRange l)); simpl;
      destruct (targetSelectionRange l) as [selection |]; simpl; auto;
      destruct (getOriginalDocRange orig emb indexes selection); reflexivity.
Qed.

(** The entry that the callback pushes for an entry that is not redirected. *)
Definition translated
  (orig emb : TextDocument) (infos : EmbeddedLanguageDocInfos) (d : DefinitionEntry) : DefinitionEntry :=
  if checkIsDefinitionUriEqual d (infos_uri infos)
  then ajustDefinitionRange (changeDefinitionUri d (doc_uri orig)) orig emb (characterIndexes infos)
  else d.

Lemma entryTrace_not_redirected orig emb infos d :
  isRedirected infos d = false ->
  entryTrace orig emb infos d = [Pushed (translated orig emb infos d)].
Proof.
  intros H. unfold translated.
  destruct (checkIsDefinitionUriEqual d (infos_uri infos)) eqn:Hu.
  - now apply processDefinition_ajusted.
  - now apply processDefinition_elsewhere.
Qed.

(** The command that the callback of an entry sends: one for an entry on a
    trigger range in the python document, none otherwise. *)
Definition redirectionCalls (infos : EmbeddedLanguageDocInfos) (d : DefinitionEntry) : list Event :=
  if checkIsDefinitionUriEqual d (infos_uri infos) && String.eqb (language infos) "python" then
    if checkIsDefinitionRangeEqual d dRange then
      [CalledExecuteDefinitionProvider (getDefinitionUri d) dataSmartPosition]
    else if checkIsDefinitionRangeEqual d eRange then
      [CalledExecuteDefinitionProvider (getDefinitionUri d) eventPosition]
    else []
  else [].

Lemma entryTrace_calls orig emb infos d :
  providerCalls (entryTrace orig emb infos d) = redirectionCalls infos d.
Proof.
  unfold redirectionCalls.
  destruct (checkIsDefinitionUriEqual d (infos_uri infos)) eqn:Hu; simpl.
  - destruct (String.eqb (language infos) "python") eqn:Hl.
    + apply String.eqb_eq in Hl.
      destruct (checkIsDefinitionRangeEqual d dRange) eqn:Hd.
      * rewrite processDefinition_d by assumption. simpl.
        fold (providerCalls (map Pushed (map (convertToSameDefinitionType d)
                (executeDefinitionProvider (getDefinitionUri d) dataSmartPosition)))).
        now rewrite providerCalls_pushed.
      * destruct (checkIsDefinitionRangeEqual d eRange) eqn:He.
        -- rewrite processDefinition_e by assumption. simpl.
           fold (providerCalls (map Pushed (map (convertToSameDefinitionType d)
                   (executeDefinitionProvider (getDefinitionUri d) eventPosition)))).
           now rewrite providerCalls_pushed.
        -- rewrite entryTrace_not_redirected; [reflexivity |].
           unfold isRedirected. now rewrite Hd, He, !andb_false_r.
    + rewrite entryTrace_not_redirected; [reflexivity |].
      unfold isRedirected. now rewrite Hl, andb_false_r.
  - rewrite entryTrace_not_redirected; [reflexivity |].
    unfold isRedirected. now rewrite Hu.
Qed.

Lemma redirectionCalls_length infos definitions :
  List.length (flat_map (redirectionCalls infos) definitions)
  = List.length (filter (isRedirected infos) definitions).
Proof.
  induction definitions as [| d ds IH]; simpl; auto.
  rewrite length_app, IH. unfold redirectionCalls, isRedirected.
  destruct (checkIsDefinitionUriEqual d (infos_uri infos) && String.eqb (language infos) "python");
    simpl; auto.
  destruct (checkIsDefinitionRangeEqual d dRange); simpl; auto.
  destruct (checkIsDefinitionRangeEqual d eRange); simpl; auto.
Qed.

(** X1: [ajustDefinitionRange] never changes the target URI or the shape of
    an entry; the target range becomes its translation when there is one and
    stays as it is otherwise; and of a LocationLink the origin selection
    range is kept, and a missing target selection range stays missing. *)
Theorem ajustDefinitionRange_keeps_target orig emb indexes d :
  getDefinitionUri (ajustDefinitionRange d orig emb indexes) = getDefinitionUri d
  /\ sameShape d (ajustDefinitionRange d orig emb indexes) = true
  /\ getDefinitionRange (ajustDefinitionRange d orig emb indexes)
     = match getOriginalDocRange orig emb indexes (getDefinitionRange d) with
       | Some r => r
       | None => getDefinitionRange d
       end
  /\ (forall l, d = IsLocationLink l ->
        exists l',
          ajustDefinitionRange d orig emb indexes = IsLocationLink l'
          /\ originSelectionRange l' = originSelectionRange l
          /\ (targetSelectionRange l = None -> targetSelectionRange l' = None)).
Proof.
  split; [apply ajustDefinitionRange_uri |].
  destruct d as [l | l]; simpl.
  - destruct (getOriginalDocRange orig emb indexes (range l)); repeat split; discriminate.
  - destruct (getOriginalDocRange orig emb indexes (targetRange l)) as [r |]; simpl;
      destruct (targetSelectionRange l) as [selection |] eqn:Hs; simpl;
      try destruct (getOriginalDocRange orig emb indexes selection); simpl;
      repeat split; intros l0 E; injection E as <-; eexists; repeat split;
      simpl; auto; try discriminate; rewrite Hs; discriminate.
Qed.

(** The embedded definition provider is consulted for this request. *)
Definition consultsEmbeddedProvider (document : TextDocument) (position : Position) : Prop :=
  returnsNextResult (next document position) = false
  /\ exists embeddedLanguageType embeddedLanguageDocInfos,
       getEmbeddedLanguageTypeOnPosition (doc_uri document) position = Some embeddedLanguageType
       /\ getEmbeddedLanguageDocInfos (doc_uri document) embeddedLanguageType
          = Some embeddedLanguageDocInfos.

(** X2: [middlewareProvideDefinition] calls the embedded definition provider
    exactly in the requests where the host provider returned [undefined] or
    the empty array and both the embedded language at the position and the
    infos of its document are known.  In every other request it returns the
    result of the host provider when that is anything but [undefined] or
    the empty array ([null] included), and [undefined] otherwise. *)
Theorem embedded_provider_consulted_iff schedule document position trace :
  (providerCalls (snd (middlewareProvideDefinition schedule document position trace))
     <> providerCalls trace
   <-> consultsEmbeddedProvider document position)
  /\ (~ consultsEmbeddedProvider document position ->
      fst (middlewareProvideDefinition schedule document position trace)
      = if returnsNextResult (next document position) then next document position
        else IsUndefined).
Proof.
  unfold consultsEmbeddedProvider, middlewareProvideDefinition, mbind, emit, ret.
  destruct (returnsNextResult (next document position)); simpl.
  { split; [| reflexivity]. rewrite providerCalls_app. simpl. rewrite app_nil_r.
    split; [intros C; now contradiction C | intros [C _]; discriminate]. }
  destruct (getEmbeddedLanguageTypeOnPosition (doc_uri document) position) as [ty |]; simpl.
  2:{ split; [| reflexivity]. rewrite !providerCalls_app. simpl. rewrite !app_nil_r.
      split; [intros C; now contradiction C | intros [_ [t [i [C _]]]]; discriminate]. }
  destruct (getEmbeddedLanguageDocInfos (doc_uri document) ty) as [infos |] eqn:Hi; simpl.
  2:{ split; [| reflexivity]. rewrite !providerCalls_app. simpl. rewrite !app_nil_r.
      split; [intros C; now contradiction C |].
      intros [_ [t [i [C1 C2]]]]. injection C1 as <-. congruence. }
  split.
  - split; [intros _; split; eauto |]. intros _.
    assert (G : forall (r : ProviderResult) (extra : list Event),
               providerCalls
                 ((((trace ++ [CalledNext (doc_uri document) position])
                      ++ [CalledGetEmbeddedLanguageTypeOnPosition (doc_uri document) position])
                     ++ [CalledOpenTextDocument (infos_uri infos)])
                    ++ [CalledExecuteDefinitionProvider (infos_uri infos)
                          (getEmbeddedLanguageDocPosition document (openTextDocument (infos_uri infos))
                             (characterIndexes infos) position)]
                    ++ extra)
               <> providerCalls trace).
    { intros r extra C. rewrite !providerCalls_app in C. simpl in C.
      rewrite !app_nil_r in C.
      rewrite <- (app_nil_r (providerCalls trace)) in C at 2.
      apply app_inv_head in C. discriminate. }
    destruct (checkIsArrayLocation _); unfold processDefinitions; simpl;
      rewrite <- app_assoc; apply (G IsUndefined).
  - intros C. exfalso. apply C. split; eauto.
Qed.

(** X3: when the host provider found nothing and the embedded document is
    known, [middlewareProvideDefinition] asks the embedded provider once at
    the position translated to the embedded document, after the host
    provider, the embedded language lookup and the opening of the embedded
    document, and it returns an array with the processed entries of the
    answer, each once; the only further events are commands of redirected
    entries. *)
Theorem embedded_fallback_result schedule document position trace ty infos :
  returnsNextResult (next document position) = false ->
  getEmbeddedLanguageTypeOnPosition (doc_uri document) position = Some ty ->
  getEmbeddedLanguageDocInfos (doc_uri document) ty = Some infos ->
  exists result calls,
    middlewareProvideDefinition schedule document position trace
    = (IsArray result,
       trace
       ++ [CalledNext (doc_uri document) position;
           CalledGetEmbeddedLanguageTypeOnPosition (doc_uri document) position;
           CalledOpenTextDocument (infos_uri infos);
           CalledExecuteDefinitionProvider (infos_uri infos)
             (getEmbeddedLanguageDocPosition document (openTextDocument (infos_uri infos))
                (characterIndexes infos) position)]
       ++ calls)
    /\ Permutation result
         (flat_map (entryResult document (openTextDocument (infos_uri infos)) infos)
            (executeDefinitionProvider (infos_uri infos)
               (getEmbeddedLanguageDocPosition document (openTextDocument (infos_uri infos))
                  (characterIndexes infos) position)))
    /\ Permutation calls
         (flat_map (redirectionCalls infos)
            (executeDefinitionProvider (infos_uri infos)
               (getEmbeddedLanguageDocPosition document (openTextDocument (infos_uri infos))
                  (characterIndexes infos) position))).
Proof.
  intros Hn Ht Hi.
  unfold middlewareProvideDefinition, mbind, emit, ret. rewrite Hn, Ht, Hi. simpl.
  set (emb := openTextDocument (infos_uri infos)).
  set (pos := getEmbeddedLanguageDocPosition document emb (characterIndexes infos) position).
  set (defs := executeDefinitionProvider (infos_uri infos) pos).
  assert (G : exists result calls,
             (let (a, trace') :=
                processDefinitions schedule defs document emb infos
                  ((((trace ++ [CalledNext (doc_uri document) position])
                       ++ [CalledGetEmbeddedLanguageTypeOnPosition (doc_uri document) position])
                      ++ [CalledOpenTextDocument (infos_uri infos)])
                     ++ [CalledExecuteDefinitionProvider (infos_uri infos) pos])
              in (IsArray a, trace'))
             = (IsArray result,
                trace
                ++ [CalledNext (doc_uri document) position;
                    CalledGetEmbeddedLanguageTypeOnPosition (doc_uri document) position;
                    CalledOpenTextDocument (infos_uri infos);
                    CalledExecuteDefinitionProvider (infos_uri infos) pos]
                ++ calls)
             /\ Permutation result (flat_map (entryResult document emb infos) defs)
             /\ Permutation calls (flat_map (redirectionCalls infos) defs)).
  { pose proof (processDefinitions_permutation schedule defs document emb infos []) as P.
    unfold processDefinitions in *. simpl in *.
    eexists. eexists. split; [| split; [exact P |]].
    - rewrite <- !app_assoc. simpl. reflexivity.
    - rewrite (providerCalls_permutation _ _
                 (promiseAll_permutation executeDefinitionProvider schedule _ [])).
      simpl. rewrite providerCalls_flat_map, flat_map_concat_map, map_map, <- flat_map_concat_map.
      erewrite flat_map_ext; [reflexivity |]. intros d. apply entryTrace_calls. }
  destruct (checkIsArrayLocation defs); exact G.
Qed.

(** X4: for the python document, the entries of the input that do not point
    into the virtual document are returned as they are and before all other
    entries, in the order of the input, under every completion timing. *)
Theorem entries_elsewhere_come_first schedule definitions orig emb infos trace :
  language infos = "python" ->
  exists later,
    fst (processDefinitions schedule definitions orig emb infos trace)
    = filter (fun d => negb (checkIsDefinitionUriEqual d (infos_uri infos))) definitions ++ later.
Proof.
  intros Hl.
  destruct (processDefinitions_order schedule definitions orig emb infos trace) as [later [E _]].
  exists later. rewrite E. f_equal.
  clear E.
  assert (D : forall d, isDeferred infos d = checkIsDefinitionUriEqual d (infos_uri infos)).
  { intros d. unfold isDeferred. rewrite Hl. apply andb_true_r. }
  induction definitions as [| d ds IH]; simpl; auto.
  rewrite D. destruct (checkIsDefinitionUriEqual d (infos_uri infos)) eqn:Hu; simpl; auto.
  unfold entryResult at 1. rewrite processDefinition_elsewhere by exact Hu.
  simpl. now rewrite IH.
Qed.

(** X5: when the embedded language is not python, [processDefinitions]
    sends no command and returns, under every completion timing, one entry
    per input entry in the order of the input: the entry itself when it does
    not point into the virtual document, and otherwise the entry with the
    URI of the original document and its range adjusted. *)
Theorem other_languages_translate_in_order schedule definitions orig emb infos trace :
  language infos <> "python" ->
  processDefinitions schedule definitions orig emb infos trace
  = (map (translated orig emb infos) definitions, trace).
Proof.
  intros Hl. apply String.eqb_neq in Hl.
  assert (R : forall d, isRedirected infos d = false).
  { intros d. unfold isRedirected. now rewrite Hl, andb_false_r. }
  assert (S : forallb synchronous (map (processDefinition orig emb infos) definitions) = true).
  { apply forallb_forall. intros t Ht. apply in_map_iff in Ht as [d [<- _]].
    rewrite processDefinition_synchronous. unfold isDeferred. now rewrite Hl, andb_false_r. }
  unfold processDefinitions.
  rewrite (promiseAll_synchronous executeDefinitionProvider schedule _ [] S). simpl.
  assert (T : flat_map (fun t => finish executeDefinitionProvider t [])
                (map (processDefinition orig emb infos) definitions)
              = map Pushed (map (translated orig emb infos) definitions)).
  { induction definitions as [| d ds IH]; simpl; auto.
    simpl in S. apply andb_true_iff in S as [_ S']. rewrite (IH S').
    fold (entryTrace orig emb infos d). now rewrite entryTrace_not_redirected. }
  rewrite T, resultOf_pushed, providerCalls_pushed. now rewrite app_nil_r.
Qed.

(** X6: under every completion timing [processDefinitions] sends exactly one
    command for each entry that a redirection rule takes (at the redirect
    position of the rule, on the URI of the entry) and no other command: an
    entry that is not on a trigger range of the python document never
    reaches the embedded provider. *)
Theorem one_command_per_redirected_entry schedule definitions orig emb infos trace :
  exists calls,
    snd (processDefinitions schedule definitions orig emb infos trace) = trace ++ calls
    /\ Permutation calls (flat_map (redirectionCalls infos) definitions)
    /\ List.length calls = List.length (filter (isRedirected infos) definitions).
Proof.
  unfold processDefinitions. simpl. eexists. split; [reflexivity |].
  assert (P : Permutation
                (providerCalls
                   (promiseAll executeDefinitionProvider schedule
                      (map (processDefinition orig emb infos) definitions) []))
                (flat_map (redirectionCalls infos) definitions)).
  { rewrite (providerCalls_permutation _ _
               (promiseAll_permutation executeDefinitionProvider schedule _ [])).
    simpl. rewrite providerCalls_flat_map, flat_map_concat_map, map_map, <- flat_map_concat_map.
    erewrite flat_map_ext; [reflexivity |]. intros d. apply entryTrace_calls. }
  split; [exact P |].
  rewrite (Permutation_length P). apply redirectionCalls_length.
Qed.

(** X7: when no entry of the input is redirected and the original document
    is not the virtual document, no entry of the result points into the
    virtual document, whatever the translation of the ranges does. *)
Theorem virtual_document_does_not_leak schedule definitions orig emb infos trace :
  (forall d, In d definitions -> isRedirected infos d = false) ->
  doc_uri orig <> infos_uri infos ->
  Forall (fun r => checkIsDefinitionUriEqual r (infos_uri infos) = false)
    (fst (processDefinitions schedule definitions orig emb infos trace)).
Proof.
  intros Hr Hne. apply Forall_forall. intros r Hin.
  apply (Permutation_in _ (processDefinitions_permutation schedule definitions orig emb infos trace))
    in Hin.
  apply in_flat_map in Hin as [d [Hd Hin]].
  unfold entryResult in Hin. rewrite entryTrace_not_redirected in Hin by (now apply Hr).
  simpl in Hin. destruct Hin as [<- | []]. unfold translated.
  destruct (checkIsDefinitionUriEqual d (infos_uri infos)) eqn:Hu; [| exact Hu].
  unfold checkIsDefinitionUriEqual.
  rewrite ajustDefinitionRange_uri.
  destruct (changeDefinitionUri_spec d (doc_uri orig)) as [-> _].
  now apply String.eqb_neq.
Qed.

Lemma processDefinition_pushesOnce orig emb infos d :
  pushesOnce executeDefinitionProvider (processDefinition orig emb infos d).
Proof.
  unfold processDefinition, redirectionFunctions, tryRedirections, getDefinitionOfD,
    getDefinitionOfE, redirectDefinition.
  destruct (checkIsDefinitionUriEqual d (infos_uri infos)); [| reflexivity].
  destruct (String.eqb (language infos) "python"); [| reflexivity].
  destruct (checkIsDefinitionRangeEqual d dRange); [reflexivity |].
  destruct (checkIsDefinitionRangeEqual d eRange); reflexivity.
Qed.

(** X16: under every completion timing the entries that the callback of
    one input entry pushes stand side by side in the result, in the order
    in which the callback pushed them: the answers of a redirection are never
    mixed with the entries of other callbacks. *)
Theorem entry_results_stay_together schedule definitions orig emb infos trace d :
  In d definitions ->
  exists before after,
    fst (processDefinitions schedule definitions orig emb infos trace)
    = before ++ entryResult orig emb infos d ++ after.
Proof.
  intros Hin. unfold processDefinitions, entryResult, entryTrace. simpl.
  apply (promiseAll_blocks executeDefinitionProvider schedule
           (map (processDefinition orig emb infos) definitions) []).
  - apply Forall_forall. intros t Ht. apply in_map_iff in Ht as [x [<- _]].
    apply processDefinition_pushesOnce.
  - now apply in_map.
Qed.

End Middleware.

(** *** Definitions in the recipe [foo.bb] *)

Import Recipe.

(** The python language server knows where [DataSmart] is defined. *)
Definition dataSmartDefinition : DefinitionEntry :=
  IsLocationLink (mkLocationLink None libraryUri (newRange 100 0 140 0) (Some (newRange 100 6 100 15))).

Definition providerExample (u : Uri) (pos : Position) : list DefinitionEntry :=
  if String.eqb u virtualUri && Position_isEqual pos dataSmartPosition
  then [dataSmartDefinition] else [].

Definition hostFinds (_ : TextDocument) (_ : Position) : ProviderResult :=
  IsArray [IsLocation (mkLocation hostUri (newRange 1 0 1 3))].

(** An entry on an injected line, one on [d], one in the python code of the
    recipe, one in a library. *)
Definition headerEntry : DefinitionEntry := IsLocation (mkLocation virtualUri (newRange 1 0 1 6)).
Definition dEntry : DefinitionEntry := IsLocation (mkLocation virtualUri dRange).
Definition recipeEntry : DefinitionEntry := IsLocation (mkLocation virtualUri (newRange 6 4 6 9)).
Definition libraryEntry : DefinitionEntry := IsLocation (mkLocation libraryUri (newRange 7 0 7 5)).
Definition recipeLink : LocationLink :=
  mkLocationLink None virtualUri (newRange 6 0 8 0) (Some (newRange 6 4 6 9)).

Definition hostFindsNothing (_ : TextDocument) (_ : Position) : ProviderResult := IsArray [].

(** A request on line 12, character 19 of the recipe, where the host finds
    nothing: the python server is asked at line 2, character 19 of the
    embedded document and its answer, which lies in a library, is returned
    as it is. *)
Example middleware_falls_back_to_python :
  middlewareProvideDefinition hostFindsNothing typeExample infosExample openExample
    toEmbeddedExample toHostExample providerExample [] hostDocument (mkPosition 12 19) []
  = (IsArray [dataSmartDefinition],
     [CalledNext hostUri (mkPosition 12 19);
      CalledGetEmbeddedLanguageTypeOnPosition hostUri (mkPosition 12 19);
      CalledOpenTextDocument virtualUri;
      CalledExecuteDefinitionProvider virtualUri (mkPosition 2 19)]).
Proof. reflexivity. Qed.

(** The host provider finds a definition in the recipe: it is returned. *)
Lemma host_result_returned_verbatim_witness :
  nonEmpty (hostFinds hostDocument (mkPosition 12 3)) = true
  /\ fst (middlewareProvideDefinition hostFinds typeExample infosExample openExample
            toEmbeddedExample toHostExample providerExample [] hostDocument (mkPosition 12 3) [])
     = hostFinds hostDocument (mkPosition 12 3).
Proof.
  split; [reflexivity |].
  exact (proj1 (host_result_returned_verbatim hostFinds typeExample infosExample openExample
                  toEmbeddedExample toHostExample providerExample [] hostDocument (mkPosition 12 3) []
                  eq_refl)).
Defined.

(** The definition of [d] is redirected to the definition of [DataSmart],
    returned as a Location like the entry it replaces. *)
Lemma redirection_hop_witness :
  checkIsDefinitionRangeEqual dEntry dRange = true
  /\ forall schedule trace,
       processDefinitions toHostExample providerExample schedule [dEntry]
         hostDocument virtualDocument pythonInfos trace
       = ([IsLocation (mkLocation libraryUri (newRange 100 0 140 0))],
          trace ++ [CalledExecuteDefinitionProvider virtualUri dataSmartPosition]).
Proof.
  split; [reflexivity |].
  exact (proj1 (redirection_hop toHostExample providerExample hostDocument virtualDocument
                  pythonInfos dEntry dRange dataSmartPosition
                  eq_refl eq_refl (or_introl eq_refl) eq_refl)).
Defined.

(** The entry on an injected line is kept beside a library entry. *)
Lemma untranslated_entry_is_kept_witness :
  toHostExample hostDocument virtualDocument [] (getDefinitionRange headerEntry) = None
  /\ exists kept,
       entryResult toHostExample providerExample hostDocument virtualDocument pythonInfos headerEntry
       = [kept]
       /\ In kept (fst (processDefinitions toHostExample providerExample [1%nat; 0%nat]
                          [libraryEntry; headerEntry] hostDocument virtualDocument pythonInfos []))
       /\ getDefinitionUri kept = hostUri
       /\ getDefinitionRange kept = getDefinitionRange headerEntry
       /\ sameShape headerEntry kept = true.
Proof.
  split; [reflexivity |].
  exact (proj1 (untranslated_entry_is_kept toHostExample providerExample [1%nat; 0%nat]
                  [libraryEntry; headerEntry] hostDocument virtualDocument pythonInfos [] headerEntry
                  (or_intror (or_introl eq_refl)) eq_refl eq_refl eq_refl)).
Defined.

(** C1, the claim as stated fails: the entry on an injected line points into
    the virtual document and its range has no translation, and still the
    result holds it, with the URI of the recipe and its untranslated range;
    the result is not shorter than the input. *)
Lemma dropped_on_miss_counterexample :
  checkIsDefinitionUriEqual headerEntry (infos_uri pythonInfos) = true
  /\ toHostExample hostDocument virtualDocument (characterIndexes pythonInfos)
       (getDefinitionRange headerEntry) = None
  /\ (forall schedule,
        fst (processDefinitions toHostExample providerExample schedule [headerEntry]
               hostDocument virtualDocument pythonInfos [])
        = [IsLocation (mkLocation hostUri (newRange 1 0 1 6))])
  /\ List.length
       (fst (processDefinitions toHostExample providerExample [] [headerEntry]
               hostDocument virtualDocument pythonInfos []))
     = List.length [headerEntry].
Proof.
  repeat split. intros schedule. now rewrite processDefinitions_single.
Qed.

(** C7, the claim as stated fails: for the input [recipeEntry; libraryEntry]
    the library entry is pushed while the callback of the recipe entry is
    suspended, so under every completion timing the result is the library
    entry followed by the translated recipe entry, which is not the order of
    the input. *)
Lemma input_order_counterexample :
  (forall schedule,
      fst (processDefinitions toHostExample providerExample schedule [recipeEntry; libraryEntry]
             hostDocument virtualDocument pythonInfos [])
      = [libraryEntry; IsLocation (mkLocation hostUri (newRange 16 4 16 9))])
  /\ flat_map (entryResult toHostExample providerExample hostDocument virtualDocument pythonInfos)
       [recipeEntry; libraryEntry]
     = [IsLocation (mkLocation hostUri (newRange 16 4 16 9)); libraryEntry]
  /\ [libraryEntry; IsLocation (mkLocation hostUri (newRange 16 4 16 9))]
     <> [IsLocation (mkLocation hostUri (newRange 16 4 16 9)); libraryEntry].
Proof.
  repeat split.
  - intros schedule.
    destruct (processDefinitions_order toHostExample providerExample schedule
                [recipeEntry; libraryEntry] hostDocument virtualDocument pythonInfos [])
      as [later [E P]].
    rewrite E. cbn in P. apply Permutation_sym, Permutation_length_1_inv in P. now subst later.
  - discriminate.
Qed.

(** C8, the code at a LocationLink into the virtual document: target range
    (6,0)-(8,0) and target selection range (6,4)-(6,9) both have a
    translation, (16,0)-(18,0) and (16,4)-(16,9); the entry returned carries
    the translation of the target range in both fields. *)
Theorem targetSelectionRange_gets_targetRange :
  toHostExample hostDocument virtualDocument [] (newRange 6 0 8 0) = Some (newRange 16 0 18 0)
  /\ toHostExample hostDocument virtualDocument [] (newRange 6 4 6 9) = Some (newRange 16 4 16 9)
  /\ isRedirected pythonInfos (IsLocationLink recipeLink) = false
  /\ ajustDefinitionRange toHostExample (changeDefinitionUri (IsLocationLink recipeLink) hostUri)
       hostDocument virtualDocument []
     = IsLocationLink (mkLocationLink None hostUri (newRange 16 0 18 0) (Some (newRange 16 0 18 0)))
  /\ fst (processDefinitions toHostExample providerExample [] [IsLocationLink recipeLink]
            hostDocument virtualDocument pythonInfos [])
     = [IsLocationLink (mkLocationLink None hostUri (newRange 16 0 18 0) (Some (newRange 16 0 18 0)))].
Proof. repeat split. Qed.

(** *** The further properties in the recipe *)

Definition bashInfos : EmbeddedLanguageDocInfos := mkInfos virtualUri "bash" [].

(** The request of [middleware_falls_back_to_python]. *)
Lemma embedded_fallback_result_witness :
  returnsNextResult (hostFindsNothing hostDocument (mkPosition 12 19)) = false
  /\ exists result calls,
       middlewareProvideDefinition hostFindsNothing typeExample infosExample openExample
         toEmbeddedExample toHostExample providerExample [] hostDocument (mkPosition 12 19) []
       = (IsArray result,
          [CalledNext hostUri (mkPosition 12 19);
           CalledGetEmbeddedLanguageTypeOnPosition hostUri (mkPosition 12 19);
           CalledOpenTextDocument virtualUri;
           CalledExecuteDefinitionProvider virtualUri (mkPosition 2 19)] ++ calls)
       /\ Permutation result [dataSmartDefinition].
Proof.
  split; [reflexivity |].
  destruct (embedded_fallback_result hostFindsNothing typeExample infosExample openExample
              toEmbeddedExample toHostExample providerExample [] hostDocument (mkPosition 12 19) []
              "python" pythonInfos eq_refl eq_refl eq_refl) as [result [calls [E [P _]]]].
  exists result, calls. split; [exact E | exact P].
Defined.

(** The library entry comes before the entry of the recipe. *)
Lemma entries_elsewhere_come_first_witness :
  language pythonInfos = "python"
  /\ exists later,
       fst (processDefinitions toHostExample providerExample [0%nat; 0%nat]
              [recipeEntry; libraryEntry] hostDocument virtualDocument pythonInfos [])
       = [libraryEntry] ++ later.
Proof.
  split; [reflexivity |].
  exact (entries_elsewhere_come_first toHostExample providerExample [0%nat; 0%nat]
           [recipeEntry; libraryEntry] hostDocument virtualDocument pythonInfos [] eq_refl).
Defined.

(** In a bash document the entries come back in the order of the input,
    the entry on [dRange] translated like any other. *)
Lemma other_languages_translate_in_order_witness :
  language bashInfos <> "python"
  /\ processDefinitions toHostExample providerExample [1%nat; 0%nat]
       [recipeEntry; libraryEntry; dEntry] hostDocument virtualDocument bashInfos []
     = ([IsLocation (mkLocation hostUri (newRange 16 4 16 9)); libraryEntry;
         IsLocation (mkLocation hostUri dRange)], []).
Proof.
  assert (H : language bashInfos <> "python") by discriminate.
  split; [exact H |].
  exact (other_languages_translate_in_order toHostExample providerExample [1%nat; 0%nat]
           [recipeEntry; libraryEntry; dEntry] hostDocument virtualDocument bashInfos [] H).
Defined.

(** Untranslated, translated and library entries: none in the virtual document. *)
Lemma virtual_document_does_not_leak_witness :
  doc_uri hostDocument <> infos_uri pythonInfos
  /\ Forall (fun r => checkIsDefinitionUriEqual r (infos_uri pythonInfos) = false)
       (fst (processDefinitions toHostExample providerExample [] [headerEntry; recipeEntry; libraryEntry]
               hostDocument virtualDocument pythonInfos [])).
Proof.
  assert (H : doc_uri hostDocument <> infos_uri pythonInfos) by discriminate.
  split; [exact H |].
  apply (virtual_document_does_not_leak toHostExample providerExample [] 
           [headerEntry; recipeEntry; libraryEntry] hostDocument virtualDocument pythonInfos []).
  - intros d [<- | [<- | [<- | []]]]; reflexivity.
  - exact H.
Defined.

(** The python server answers a redirection with two definitions. *)
Definition twoAnswers (_ : Uri) (_ : Position) : list DefinitionEntry :=
  [dataSmartDefinition; libraryEntry].

Lemma entry_results_stay_together_witness :
  exists before after,
    fst (processDefinitions toHostExample twoAnswers [1%nat; 0%nat; 1%nat; 0%nat]
           [dEntry; recipeEntry; libraryEntry] hostDocument virtualDocument pythonInfos [])
    = before
      ++ [IsLocation (mkLocation libraryUri (newRange 100 0 140 0)); libraryEntry]
      ++ after.
Proof.
  exact (entry_results_stay_together toHostExample twoAnswers [1%nat; 0%nat; 1%nat; 0%nat]
           [dEntry; recipeEntry; libraryEntry] hostDocument virtualDocument pythonInfos []
           dEntry (or_introl eq_refl)).
Defined.

End DefinitionMiddleware.

(** ** lib/src/utils/arrays.ts *)
Module Arrays.

Section Merge.

Context {T : Type}.
Variable getUniqueKey : T -> string.

Definition seenBefore (seen : list string) (key : string) : bool :=
  existsb (String.eqb key) seen.

(** The scan of [mergeArraysDistinctly]: an item is kept when its key has not
    been seen so far. *)
Fixpoint mergeDistinctly (seen : list string) (items : list T) : list T :=
  match items with
  | [] => []
  | item :: rest =>
      if seenBefore seen (getUniqueKey item) then mergeDistinctly seen rest
      else item :: mergeDistinctly (getUniqueKey item :: seen) rest
  end.

(** Modelled from the spec: [mergeArraysDistinctly] of lib/src/utils/arrays.ts,
    which is not among the sources at hand.  The completion middleware
    passes the embedded items first and the host items last, and of this
    merge the spec says: "Merge embedded items and host items into one list,
    de-duplicating by display label - host items win ties (a host item and an
    embedded item sharing a label: only one survives, host's, since host
    list is scanned/inserted with priority in the merge).  Order: merged list
    preserves first-seen order across the two inputs with host first."  So
    the arrays are scanned from the last one passed to the first, and an
    item whose key was seen before is left out. *)
Definition mergeArraysDistinctly (arrays : list (list T)) : list T :=
  mergeDistinctly [] (List.concat (rev arrays)).

Lemma seenBefore_In (seen : list string) (key : string) :
  seenBefore seen key = true <-> In key seen.
Proof.
  unfold seenBefore. rewrite existsb_exists. split.
  - intros [k [Hin E]]. apply String.eqb_eq in E. now subst.
  - intros H. exists key. split; auto. apply String.eqb_refl.
Qed.

Lemma seenBefore_ext (seen seen' : list string) (key : string) :
  (forall k, In k seen <-> In k seen') -> seenBefore seen key = seenBefore seen' key.
Proof.
  intros H. apply eq_true_iff_eq. rewrite !seenBefore_In. apply H.
Qed.

Lemma mergeDistinctly_ext (items : list T) (seen seen' : list string) :
  (forall k, In k seen <-> In k seen') ->
  mergeDistinctly seen items = mergeDistinctly seen' items.
Proof.
  revert seen seen'. induction items as [| item rest IH]; intros seen seen' H; simpl; auto.
  rewrite (seenBefore_ext seen seen' _ H).
  destruct (seenBefore seen' (getUniqueKey item)).
  - now apply IH.
  - f_equal. apply IH. intros k. simpl. now rewrite H.
Qed.

(** The items of a first array are merged as if they were alone; those of a
    second are merged with the keys of the first already seen. *)
Lemma mergeDistinctly_app (first second : list T) (seen : list string) :
  mergeDistinctly seen (first ++ second) =
  mergeDistinctly seen first ++ mergeDistinctly (map getUniqueKey first ++ seen) second.
Proof.
  revert seen. induction first as [| item rest IH]; intros seen; simpl; auto.
  destruct (seenBefore seen (getUniqueKey item)) eqn:E.
  - rewrite IH. f_equal. apply mergeDistinctly_ext. intros k.
    apply seenBefore_In in E. simpl. rewrite !in_app_iff.
    split; [tauto |]. intros [D | H]; [subst k |]; tauto.
  - simpl. rewrite IH. do 2 f_equal. apply mergeDistinctly_ext. intros k.
    simpl. rewrite !in_app_iff. simpl. tauto.
Qed.

Lemma mergeDistinctly_In (items : list T) (seen : list string) (x : T) :
  In x (mergeDistinctly seen items) -> In x items /\ ~ In (getUniqueKey x) seen.
Proof.
  revert seen. induction items as [| item rest IH]; intros seen; simpl; [tauto |].
  destruct (seenBefore seen (getUniqueKey item)) eqn:E.
  - intros H. apply IH in H. tauto.
  - intros [-> | H].
    + split; auto. rewrite <- seenBefore_In. now rewrite E.
    + apply IH in H. simpl in H. tauto.
Qed.

Lemma mergeDistinctly_NoDup (items : list T) (seen : list string) :
  NoDup (map getUniqueKey (mergeDistinctly seen items)).
Proof.
  revert seen. induction items as [| item rest IH]; intros seen; simpl; [constructor |].
  destruct (seenBefore seen (getUniqueKey item)); auto.
  simpl. constructor; auto.
  intros H. apply in_map_iff in H as [x [Ex Hx]].
  apply mergeDistinctly_In in Hx as [_ Hx]. apply Hx. rewrite Ex. now left.
Qed.

Lemma mergeDistinctly_keys (items : list T) (seen : list string) (key : string) :
  In key (map getUniqueKey (mergeDistinctly seen items)) <->
  In key (map getUniqueKey items) /\ ~ In key seen.
Proof.
  revert seen. induction items as [| item rest IH]; intros seen; simpl; [tauto |].
  destruct (seenBefore seen (getUniqueKey item)) eqn:E.
  - rewrite IH. apply seenBefore_In in E. split; [tauto |].
    intros [[<- | H] N]; tauto.
  - simpl. rewrite IH. simpl.
    assert (N : ~ In (getUniqueKey item) seen) by (rewrite <- seenBefore_In; now rewrite E).
    destruct (string_dec (getUniqueKey item) key) as [<- | D]; tauto.
Qed.

End Merge.

Example mergeArraysDistinctly_first_seen :
  mergeArraysDistinctly (fun s : string => s) [["a"; "b"; "a"]; ["c"; "b"]] = ["c"; "b"; "a"].
Proof. reflexivity. Qed.

End Arrays.

(** ** client/src/language/middlewareCompletion.ts *)
Module CompletionMiddleware.

Import Arrays.

(** [item.range]: absent, a [Range], or [{ inserting, replacing }]. *)
Inductive ItemRange :=
| NoRange
| SingleRange (r : Range)
| InsertReplace (inserting replacing : Range).

Record CompletionItem := mkItem {
  label : string;
  detail : option string;
  item_range : ItemRange
}.

Record CompletionList := mkCompletionList {
  isIncomplete : bool;
  items : list CompletionItem
}.

Record CompletionContext := mkContext {
  triggerKind : Z;
  triggerCharacter : option string
}.

(** [ProviderResult<CompletionItem[] | CompletionList>] *)
Inductive CompletionResult :=
| ResultUndefined
| ResultNull
| ResultArray (a : list CompletionItem)
| ResultList (l : CompletionList).

Section Middleware.

Variable next : TextDocument -> Position -> CompletionContext -> CompletionResult.
Variable getEmbeddedLanguageTypeOnPosition : string -> Position -> option string.
Variable getEmbeddedLanguageDocInfos : Uri -> string -> option EmbeddedLanguageDocInfos.
Variable openTextDocument : Uri -> TextDocument.
Variable getEmbeddedLanguageDocPosition :
  TextDocument -> TextDocument -> list Z -> Position -> Position.
Variable getOriginalDocRange :
  TextDocument -> TextDocument -> list Z -> Range -> option Range.
Variable executeCompletionItemProvider : Uri -> Position -> option string -> CompletionList.

(** [await next(document, position, context, token) ?? []] *)
Definition orEmptyArray (r : CompletionResult) : CompletionResult :=
  match r with
  | ResultUndefined | ResultNull => ResultArray []
  | _ => r
  end.

(** The callback of [pulledCompletionList.items.forEach]; the source updates
    the item in place, the updated item is returned. *)
Definition ajustItemRange
  (document embeddedLanguageTextDocument : TextDocument) (characterIndexes : list Z)
  (item : CompletionItem) : CompletionItem :=
  match item_range item with
  | NoRange => item (* pass *)
  | SingleRange r =>
      mkItem (label item) (detail item)
        match getOriginalDocRange document embeddedLanguageTextDocument characterIndexes r with
        | Some r' => SingleRange r'
        | None => NoRange
        end
  | InsertReplace i r =>
      let inserting := getOriginalDocRange document embeddedLanguageTextDocument characterIndexes i in
      let replacing := getOriginalDocRange document embeddedLanguageTextDocument characterIndexes r in
      match inserting, replacing with
      | Some inserting', Some replacing' =>
          mkItem (label item) (detail item) (InsertReplace inserting' replacing')
      | _, _ => item (* return *)
      end
  end.

(** [nextResult instanceof CompletionList ? nextResult.items : nextResult] *)
Definition itemsOf (nextResult : CompletionResult) : list CompletionItem :=
  match nextResult with
  | ResultList l => items l
  | ResultArray a => a
  | ResultUndefined | ResultNull => []
  end.

(** The merge at the end of the middleware: the pulled items are passed
    first, the items of the host provider second. *)
Definition mergedCompletions
  (pulledItems : list CompletionItem) (nextResult : CompletionResult) : list CompletionItem :=
  mergeArraysDistinctly label [pulledItems; itemsOf nextResult].

Definition middlewareProvideCompletion
  (document : TextDocument) (position : Position) (context : CompletionContext)
  : CompletionResult :=
  let nextResult := orEmptyArray (next document position context) in
  match getEmbeddedLanguageTypeOnPosition (doc_uri document) position with
  | None => nextResult
  | Some embeddedLanguageType =>
      match getEmbeddedLanguageDocInfos (doc_uri document) embeddedLanguageType with
      | None => ResultUndefined
      | Some embeddedLanguageDocInfos =>
          let embeddedLanguageTextDocument := openTextDocument (infos_uri embeddedLanguageDocInfos) in
          let adjustedPosition :=
            getEmbeddedLanguageDocPosition document embeddedLanguageTextDocument
              (characterIndexes embeddedLanguageDocInfos) position in
          let vdocUri := doc_uri embeddedLanguageTextDocument in
          let pulledCompletionList :=
            executeCompletionItemProvider vdocUri adjustedPosition (triggerCharacter context) in
          let pulledItems :=
            map (ajustItemRange document embeddedLanguageTextDocument
                   (characterIndexes embeddedLanguageDocInfos))
              (items pulledCompletionList) in
          ResultArray (mergedCompletions pulledItems nextResult)
      end
  end.

(** The middleware where the embedded language and its document are known. *)
Lemma middlewareProvideCompletion_merges document position context embeddedLanguageType infos :
  getEmbeddedLanguageTypeOnPosition (doc_uri document) position = Some embeddedLanguageType ->
  getEmbeddedLanguageDocInfos (doc_uri document) embeddedLanguageType = Some infos ->
  middlewareProvideCompletion document position context =
  ResultArray
    (mergedCompletions
       (map (ajustItemRange document (openTextDocument (infos_uri infos)) (characterIndexes infos))
          (items (executeCompletionItemProvider (doc_uri (openTextDocument (infos_uri infos)))
                    (getEmbeddedLanguageDocPosition document (openTextDocument (infos_uri infos))
                       (characterIndexes infos) position)
                    (triggerCharacter context))))
       (orEmptyArray (next document position context))).
Proof.
  intros Ht Hi. unfold middlewareProvideCompletion. now rewrite Ht, Hi.
Qed.

(** Without an embedded language at the position the host result is
    returned, [undefined] and [null] as the empty array. *)
Lemma middlewareProvideCompletion_no_language document position context :
  getEmbeddedLanguageTypeOnPosition (doc_uri document) position = None ->
  middlewareProvideCompletion document position context =
  orEmptyArray (next document position context).
Proof.
  intros Ht. unfold middlewareProvideCompletion. now rewrite Ht.
Qed.

(** Without the infos of the embedded document nothing is returned. *)
Lemma middlewareProvideCompletion_no_infos document position context embeddedLanguageType :
  getEmbeddedLanguageTypeOnPosition (doc_uri document) position = Some embeddedLanguageType ->
  getEmbeddedLanguageDocInfos (doc_uri document) embeddedLanguageType = None ->
  middlewareProvideCompletion document position context = ResultUndefined.
Proof.
  intros Ht Hi. unfold middlewareProvideCompletion. now rewrite Ht, Hi.
Qed.

(** *** Further properties of the completion middleware *)

(** X8: [middlewareProvideCompletion] returns [undefined] exactly in the
    requests where the embedded language at the position is known and the
    infos of its document are not, and it never returns [null]: a host
    result [null] or [undefined] is returned as the empty array. *)
Theorem completion_undefined_iff document position context :
  (middlewareProvideCompletion document position context = ResultUndefined
   <-> exists embeddedLanguageType,
         getEmbeddedLanguageTypeOnPosition (doc_uri document) position = Some embeddedLanguageType
         /\ getEmbeddedLanguageDocInfos (doc_uri document) embeddedLanguageType = None)
  /\ middlewareProvideCompletion document position context <> ResultNull.
Proof.
  unfold middlewareProvideCompletion.
  destruct (getEmbeddedLanguageTypeOnPosition (doc_uri document) position) as [ty |].
  - destruct (getEmbeddedLanguageDocInfos (doc_uri document) ty) as [infos |] eqn:Hi.
    + repeat split; try discriminate.
      intros [t [E1 E2]]. injection E1 as <-. congruence.
    + repeat split; try discriminate. eauto.
  - destruct (next document position context); simpl; repeat split; try discriminate;
      intros [t [E _]]; discriminate.
Qed.

(** X9: the forEach callback keeps the label and the detail of an item, so
    the labels of the pulled items are those the embedded provider gave.  An
    item that leaves it with a single range carries the translation of the
    single range it came with, and an item that leaves it with an
    insert/replace pair came with a pair and carries either the translations
    of both ranges or the very pair it came with. *)
Theorem ajustItemRange_ranges document embeddedDocument indexes pulled item :
  map label (map (ajustItemRange document embeddedDocument indexes) pulled) = map label pulled
  /\ detail (ajustItemRange document embeddedDocument indexes item) = detail item
  /\ (forall r',
        item_range (ajustItemRange document embeddedDocument indexes item) = SingleRange r' ->
        exists r,
          item_range item = SingleRange r
          /\ getOriginalDocRange document embeddedDocument indexes r = Some r')
  /\ (forall i' r',
        item_range (ajustItemRange document embeddedDocument indexes item) = InsertReplace i' r' ->
        exists i r,
          item_range item = InsertReplace i r
          /\ ((getOriginalDocRange document embeddedDocument indexes i = Some i'
               /\ getOriginalDocRange document embeddedDocument indexes r = Some r')
              \/ (i' = i /\ r' = r
                  /\ (getOriginalDocRange document embeddedDocument indexes i = None
                      \/ getOriginalDocRange document embeddedDocument indexes r = None)))).
Proof.
  assert (L : forall x, label (ajustItemRange document embeddedDocument indexes x) = label x).
  { intros x. unfold ajustItemRange. destruct (item_range x) as [| r | i r]; auto.
    destruct (getOriginalDocRange document embeddedDocument indexes i);
      destruct (getOriginalDocRange document embeddedDocument indexes r); reflexivity. }
  split; [| split; [| split]].
  - rewrite map_map. apply map_ext. exact L.
  - unfold ajustItemRange. destruct (item_range item) as [| r | i r]; auto.
    destruct (getOriginalDocRange document embeddedDocument indexes i);
      destruct (getOriginalDocRange document embeddedDocument indexes r); reflexivity.
  - intros r'. unfold ajustItemRange. destruct (item_range item) as [| r | i r] eqn:E.
    + rewrite E. discriminate.
    + simpl. destruct (getOriginalDocRange document embeddedDocument indexes r) eqn:T;
        [| discriminate].
      intros H. injection H as <-. eauto.
    + destruct (getOriginalDocRange document embeddedDocument indexes i);
        destruct (getOriginalDocRange document embeddedDocument indexes r);
        simpl; try rewrite E; discriminate.
  - intros i' r'. unfold ajustItemRange. destruct (item_range item) as [| r | i r] eqn:E.
    + rewrite E. discriminate.
    + simpl. destruct (getOriginalDocRange document embeddedDocument indexes r); discriminate.
    + destruct (getOriginalDocRange document embeddedDocument indexes i) eqn:Ti;
        destruct (getOriginalDocRange document embeddedDocument indexes r) eqn:Tr;
        simpl; try rewrite E; intros H; injection H as <- <-; exists i, r; split; auto.
Qed.

End Middleware.

(** X10: when the embedded document is known, [middlewareProvideCompletion]
    returns a plain array that depends on the result of the host provider
    through its items only: a [CompletionList] of the host loses its
    [isIncomplete] flag, and [null] and [undefined] count as no items. *)
Theorem completion_result_is_an_array
  (next next' : TextDocument -> Position -> CompletionContext -> CompletionResult)
  getEmbeddedLanguageTypeOnPosition getEmbeddedLanguageDocInfos openTextDocument
  getEmbeddedLanguageDocPosition getOriginalDocRange executeCompletionItemProvider
  document position context embeddedLanguageType infos :
  getEmbeddedLanguageTypeOnPosition (doc_uri document) position = Some embeddedLanguageType ->
  getEmbeddedLanguageDocInfos (doc_uri document) embeddedLanguageType = Some infos ->
  itemsOf (next document position context) = itemsOf (next' document position context) ->
  (exists merged,
      middlewareProvideCompletion next getEmbeddedLanguageTypeOnPosition
        getEmbeddedLanguageDocInfos openTextDocument getEmbeddedLanguageDocPosition
        getOriginalDocRange executeCompletionItemProvider document position context
      = ResultArray merged)
  /\ middlewareProvideCompletion next getEmbeddedLanguageTypeOnPosition
       getEmbeddedLanguageDocInfos openTextDocument getEmbeddedLanguageDocPosition
       getOriginalDocRange executeCompletionItemProvider document position context
     = middlewareProvideCompletion next' getEmbeddedLanguageTypeOnPosition
         getEmbeddedLanguageDocInfos openTextDocument getEmbeddedLanguageDocPosition
         getOriginalDocRange executeCompletionItemProvider document position context.
Proof.
  intros Ht Hi Hitems.
  rewrite !(middlewareProvideCompletion_merges _ _ _ _ _ _ _ _ _ _ _ _ Ht Hi).
  split; [eauto |]. f_equal. unfold mergedCompletions. do 2 f_equal.
  destruct (next document position context), (next' document position context);
    simpl in *; congruence.
Qed.

(** *** Completion in the recipe [foo.bb] *)

Import Recipe.

Definition invoked : CompletionContext := mkContext 0 None.

Definition hostFoo : CompletionItem := mkItem "foo" (Some "bitbake") NoRange.
Definition embeddedFoo : CompletionItem := mkItem "foo" (Some "python") NoRange.
Definition embeddedBar : CompletionItem := mkItem "bar" (Some "python") NoRange.

Definition hostOffers (_ : TextDocument) (_ : Position) (_ : CompletionContext) : CompletionResult :=
  ResultArray [hostFoo].

Definition pythonOffers (_ : Uri) (_ : Position) (_ : option string) : CompletionList :=
  mkCompletionList false [embeddedFoo; embeddedBar].

(** An item of the python server whose inserting range lies on an injected
    line of the embedded document. *)
Definition staleItem : CompletionItem :=
  mkItem "getVar" (Some "python") (InsertReplace (newRange 2 0 2 1) (newRange 6 4 6 7)).

Definition pythonOffersStale (_ : Uri) (_ : Position) (_ : option string) : CompletionList :=
  mkCompletionList false [staleItem].

(** C2: the merged list holds no two items with the same label and it holds
    every label of either input; the host items come first, in their
    first-seen order, followed by the pulled (embedded) items whose label no
    host item has; on a tie of labels the host item survives.  For the host
    items [foo] (of bitbake) and the embedded items [foo; bar] (of python)
    the result is the host's foo and bar. *)
Theorem merged_completions_host_first
  (pulledItems : list CompletionItem) (nextResult : CompletionResult) :
  NoDup (map label (mergedCompletions pulledItems nextResult))
  /\ (forall l,
        In l (map label (mergedCompletions pulledItems nextResult)) <->
        In l (map label (itemsOf nextResult)) \/ In l (map label pulledItems))
  /\ mergedCompletions pulledItems nextResult =
       mergeDistinctly label [] (itemsOf nextResult)
       ++ mergeDistinctly label (map label (itemsOf nextResult)) pulledItems
  /\ (forall item,
        In item (mergedCompletions pulledItems nextResult) ->
        In (label item) (map label (itemsOf nextResult)) ->
        In item (itemsOf nextResult))
  /\ mergedCompletions [embeddedFoo; embeddedBar] (ResultArray [hostFoo]) = [hostFoo; embeddedBar]
  /\ middlewareProvideCompletion hostOffers typeExample infosExample openExample
       toEmbeddedExample toHostExample pythonOffers hostDocument (mkPosition 16 4) invoked
     = ResultArray [hostFoo; embeddedBar].
Proof.
  assert (C : mergedCompletions pulledItems nextResult =
              mergeDistinctly label [] (itemsOf nextResult ++ pulledItems)).
  { unfold mergedCompletions, mergeArraysDistinctly. simpl. now rewrite app_nil_r. }
  assert (E : mergedCompletions pulledItems nextResult =
              mergeDistinctly label [] (itemsOf nextResult)
              ++ mergeDistinctly label (map label (itemsOf nextResult)) pulledItems).
  { rewrite C, mergeDistinctly_app. now rewrite app_nil_r. }
  split; [| split; [| split; [| split; [| split]]]].
  - rewrite C. apply mergeDistinctly_NoDup.
  - intros l. rewrite C, mergeDistinctly_keys, map_app, in_app_iff. simpl. tauto.
  - exact E.
  - intros item Hin Hl. rewrite E in Hin. apply in_app_iff in Hin as [H | H].
    + now apply mergeDistinctly_In in H.
    + apply mergeDistinctly_In in H. tauto.
  - reflexivity.
  - reflexivity.
Qed.

(** C4, the code at an item with an insert/replace pair: the inserting range
    has no translation, the forEach callback returns, and the item is merged
    and returned with the pair of ranges of the virtual document. *)
Theorem insert_replace_pair_left_stale :
  toHostExample hostDocument (openExample virtualUri) [] (newRange 2 0 2 1) = None
  /\ ajustItemRange toHostExample hostDocument (openExample virtualUri) [] staleItem = staleItem
  /\ middlewareProvideCompletion hostOffers typeExample infosExample openExample
       toEmbeddedExample toHostExample pythonOffersStale hostDocument (mkPosition 16 4) invoked
     = ResultArray [hostFoo; staleItem]
  /\ item_range staleItem = InsertReplace (newRange 2 0 2 1) (newRange 6 4 6 7).
Proof. repeat split. Qed.

(** C5, the code at a request where the embedded language is known and the
    infos of its document are not: the host provider has offered [foo] and
    the middleware returns [undefined]. *)
Theorem host_result_lost_without_infos :
  hostOffers hostDocument (mkPosition 16 4) invoked = ResultArray [hostFoo]
  /\ typeExample (doc_uri hostDocument) (mkPosition 16 4) = Some "python"
  /\ noInfos (doc_uri hostDocument) "python" = None
  /\ middlewareProvideCompletion hostOffers typeExample noInfos openExample
       toEmbeddedExample toHostExample pythonOffers hostDocument (mkPosition 16 4) invoked
     = ResultUndefined.
Proof. repeat split. Qed.

(** The host offers [foo] in a [CompletionList] that is incomplete, or in
    an array: the merged result is the same array. *)
Definition hostOffersList (_ : TextDocument) (_ : Position) (_ : CompletionContext) : CompletionResult :=
  ResultList (mkCompletionList true [hostFoo]).

Lemma completion_result_is_an_array_witness :
  middlewareProvideCompletion hostOffersList typeExample infosExample openExample
    toEmbeddedExample toHostExample pythonOffers hostDocument (mkPosition 16 4) invoked
  = middlewareProvideCompletion hostOffers typeExample infosExample openExample
      toEmbeddedExample toHostExample pythonOffers hostDocument (mkPosition 16 4) invoked.
Proof.
  exact (proj2 (completion_result_is_an_array hostOffersList hostOffers typeExample infosExample
                  openExample toEmbeddedExample toHostExample pythonOffers hostDocument
                  (mkPosition 16 4) invoked "python" pythonInfos eq_refl eq_refl eq_refl)).
Defined.

End CompletionMiddleware.

(** ** The definition handler of the language server *)
Module OnDefinition.

Record TextDocumentPositionParams := mkParams {
  textDocument_uri : string;
  position : Position
}.

Record ParsedPath := mkParsedPath {
  path_root : string;
  path_dir : string;
  path_base : string;
  path_ext : string;
  path_name : string
}.

Record ElementInfo := mkElementInfo {
  element_name : string;
  element_path : option ParsedPath
}.

Record BitbakeSymbolInformation := mkSymbol {
  symbol_name : string;
  symbol_kind : Z;
  symbol_location : Location
}.

(** What [analyzer.getLastScanResult] returns. *)
Record LastScanResult := mkLastScanResult {
  symbols : list BitbakeSymbolInformation;
  includeHistory : list ParsedPath
}.

Record BitbakeScanResult := mkBitbakeScanResult {
  _classes : list ElementInfo;
  _confFiles : list ElementInfo
}.

(** [SymbolKind] of the language server protocol. *)
Definition SymbolKind_Function : Z := 12.
Definition SymbolKind_Variable : Z := 13.

(** [s.replace(pattern, replacement)] with a string pattern: the first
    occurrence is replaced. *)
Fixpoint replace (pattern replacement s : string) : string :=
  if String.prefix pattern s
  then (replacement
        ++ String.substring (String.length pattern) (String.length s - String.length pattern) s)%string
  else match s with
       | EmptyString => EmptyString
       | String c rest => String c (replace pattern replacement rest)
       end.

Example replace_file_scheme : replace "file://" "" "file:///layers/a.bb" = "/layers/a.bb".
Proof. reflexivity. Qed.

Example replace_first_only : replace "ab" "x" "cabab" = "cxab".
Proof. reflexivity. Qed.

Lemma replace_unfold (pattern replacement s : string) :
  replace pattern replacement s =
  if String.prefix pattern s
  then (replacement
        ++ String.substring (String.length pattern) (String.length s - String.length pattern) s)%string
  else match s with
       | EmptyString => EmptyString
       | String c rest => String c (replace pattern replacement rest)
       end.
Proof. destruct s; reflexivity. Qed.

Lemma prefix_append (pattern s : string) : String.prefix pattern (pattern ++ s) = true.
Proof.
  induction pattern as [| c pattern IH]; simpl.
  - destruct s; reflexivity.
  - destruct (ascii_dec c c) as [_ | N]; [exact IH | now contradiction N].
Qed.

Lemma length_append (pattern s : string) :
  String.length (pattern ++ s) = (String.length pattern + String.length s)%nat.
Proof. induction pattern as [| c pattern IH]; simpl; auto. Qed.

Lemma substring_all (s : string) : String.substring 0 (String.length s) s = s.
Proof. induction s as [| c s IH]; simpl; congruence. Qed.

Lemma substring_append (pattern s : string) :
  String.substring (String.length pattern) (String.length s) (pattern ++ s) = s.
Proof.
  induction pattern as [| c pattern IH]; simpl.
  - apply substring_all.
  - exact IH.
Qed.

(** Stripping a leading pattern gives what follows it. *)
Lemma replace_leading (pattern s : string) : replace pattern "" (pattern ++ s) = s.
Proof.
  rewrite replace_unfold, prefix_append, length_append.
  replace (String.length pattern + String.length s - String.length pattern)%nat
    with (String.length s) by lia.
  simpl. apply substring_append.
Qed.

Section Handler.

(** The analyzer, the project scanner and the connection. *)
Variable wordAtPointFromTextPosition : TextDocumentPositionParams -> option string.
Variable getDocumentTexts : string -> option (list string).
Variable getLastScanResult : string -> option LastScanResult.
Variable extractRecipeName : string -> string.
Variable getDirectiveStatementKeywordByNodeType : TextDocumentPositionParams -> option string.
Variable getDirectivePathForPosition : TextDocumentPositionParams -> option string.
Variable resolveSymbol : string -> list BitbakeSymbolInformation -> string.
Variable findExactSymbolAtPoint : string -> Position -> string -> option BitbakeSymbolInformation.
Variable matchSymbol :
  BitbakeSymbolInformation -> list BitbakeSymbolInformation -> option BitbakeSymbolInformation.
Variable extractModificationHistoryFromComments : BitbakeSymbolInformation -> list Location.
Variable isStringContent : string -> Z -> Z -> bool.
Variable getSymbolsInStringContent : string -> Z -> Z -> list BitbakeSymbolInformation.
Variable isOverride : string -> Z -> Z -> bool.
Variable findFilesInProjectScanner : string -> list ElementInfo.
Variable getGlobalDeclarationSymbols : string -> list BitbakeSymbolInformation.
Variable getIncludeUrisForUri : string -> option (list string).
Variable bitbakeScanResult : BitbakeScanResult.
(** [connection?.sendRequest(method, param)], [None] while no connection is set. *)
Variable connection : option (string -> string -> option string).
Variable encodeURI : string -> string.

Definition createDefinitionLocationForPathInfo (path : ParsedPath) : Location :=
  let url := ("file://" ++ path_dir path ++ "/" ++ path_base path)%string in
  mkLocation (encodeURI url) (newRange 0 0 0 0).

Definition getDefinitionForDirectives (directiveStatementKeyword directivePath : string)
  : list Location :=
  let located (elementInfos : list ElementInfo) : list Location :=
    flat_map (fun elementInfo =>
                match element_path elementInfo with
                | Some path => [createDefinitionLocationForPathInfo path]
                | None => []
                end) elementInfos in
  if String.eqb directiveStatementKeyword "inherit" then
    located (filter (fun bbclass => String.eqb (element_name bbclass) directivePath)
               (_classes bitbakeScanResult))
  else if String.eqb directiveStatementKeyword "require"
          || String.eqb directiveStatementKeyword "include" then
    located (findFilesInProjectScanner directivePath)
  else [].

Definition getAllDefinitionSymbolsForSymbolAtPoint
  (textDocumentUri : string) (word : string) (symbolAtPoint : option BitbakeSymbolInformation)
  : list BitbakeSymbolInformation :=
  match symbolAtPoint with
  | None => []
  | Some symbol =>
      let allDeclarationSymbols :=
        getGlobalDeclarationSymbols textDocumentUri
        ++ match getIncludeUrisForUri textDocumentUri with
           | Some includeUris => flat_map getGlobalDeclarationSymbols includeUris
           | None => []
           end in
      filter (fun s => String.eqb (symbol_name s) word
                       && (symbol_kind s =? symbol_kind symbol)%Z)
        allDeclarationSymbols
  end.

(** The position at which the word is looked up. *)
Definition wordPosition (textDocumentPositionParams : TextDocumentPositionParams) : Position :=
  let position := position textDocumentPositionParams in
  mkPosition (line position) (Z.max (character position - 1) 0).

(** [symbolAtPoint?.kind === SymbolKind.Variable || symbolAtPoint?.kind === SymbolKind.Function] *)
Definition isVariableOrFunction (symbolAtPoint : option BitbakeSymbolInformation) : bool :=
  match symbolAtPoint with
  | Some symbol =>
      (symbol_kind symbol =? SymbolKind_Variable)%Z || (symbol_kind symbol =? SymbolKind_Function)%Z
  | None => false
  end.

(** The entries of the modification history of the symbol, each with the
    container path resolved by the client when there is a connection. *)
Definition modificationHistoryDefinitions
  (lastScanResult : option LastScanResult) (symbolAtPoint : option BitbakeSymbolInformation)
  : list Location :=
  match lastScanResult, symbolAtPoint with
  | Some scan, Some symbol =>
      match matchSymbol symbol (symbols scan) with
      | Some foundSymbol =>
          map (fun location =>
                 let resolvedLocation :=
                   match connection with
                   | Some sendRequest =>
                       sendRequest "bitbake/resolveContainerPath" (replace "file://" "" (uri location))
                   | None => None
                   end in
                 mkLocation
                   match resolvedLocation with Some resolved => resolved | None => uri location end
                   (range location))
            (extractModificationHistoryFromComments foundSymbol)
      | None => []
      end
  | _, _ => []
  end.

(** [onDefinitionHandler]; the result type is [Location[] | null], [None]
    stands for [null]. *)
Definition onDefinitionHandler (textDocumentPositionParams : TextDocumentPositionParams)
  : option (list Location) :=
  let textDocumentUri := textDocument_uri textDocumentPositionParams in
  let position := position textDocumentPositionParams in
  let word :=
    wordAtPointFromTextPosition (mkParams textDocumentUri (wordPosition textDocumentPositionParams)) in
  match getDocumentTexts textDocumentUri with
  | None => Some []
  | Some documentAsText =>
      let lastScanResult := getLastScanResult (extractRecipeName textDocumentUri) in
      match getDirectiveStatementKeywordByNodeType textDocumentPositionParams,
            getDirectivePathForPosition textDocumentPositionParams with
      | Some directiveStatementKeyword, Some directivePath =>
          let resolvedDirectivePath :=
            match lastScanResult with
            | Some scan => resolveSymbol directivePath (symbols scan)
            | None => directivePath
            end in
          Some (getDefinitionForDirectives directiveStatementKeyword resolvedDirectivePath)
      | _, _ =>
          match word with
          | Some word =>
              let symbolAtPoint := findExactSymbolAtPoint textDocumentUri position word in
              if isVariableOrFunction symbolAtPoint then
                Some (map symbol_location
                        (getAllDefinitionSymbolsForSymbolAtPoint textDocumentUri word symbolAtPoint)
                      ++ modificationHistoryDefinitions lastScanResult symbolAtPoint)
              else if isStringContent textDocumentUri (line position) (character position) then
                Some (map (fun symbol => mkLocation (uri (symbol_location symbol)) (newRange 0 0 0 0))
                        (getSymbolsInStringContent textDocumentUri (line position) (character position)))
              else if isOverride textDocumentUri (line position) (character position) then
                let targetPath :=
                  match lastScanResult with
                  | Some scan =>
                      find (fun includePath =>
                              String.eqb (path_ext includePath) ".conf"
                              && String.eqb (path_name includePath) word)
                        (includeHistory scan)
                  | None => None
                  end in
                match targetPath with
                | Some target => Some [createDefinitionLocationForPathInfo target]
                | None =>
                    let overrideFile :=
                      find (fun confFile => String.eqb (element_name confFile) word)
                        (_confFiles bitbakeScanResult) in
                    match overrideFile with
                    | Some (mkElementInfo _ (Some path)) =>
                        Some [createDefinitionLocationForPathInfo path]
                    | _ => Some []
                    end
                end
              else Some []
          | None => Some []
          end
      end
  end.

(** No directive is found at the position. *)
Definition noDirective (textDocumentPositionParams : TextDocumentPositionParams) : Prop :=
  getDirectiveStatementKeywordByNodeType textDocumentPositionParams = None
  \/ getDirectivePathForPosition textDocumentPositionParams = None.

(** The word that is looked up for the request. *)
Definition wordOf (textDocumentPositionParams : TextDocumentPositionParams) : option string :=
  wordAtPointFromTextPosition
    (mkParams (textDocument_uri textDocumentPositionParams) (wordPosition textDocumentPositionParams)).

(** No override file resolves for the word: the include history of the last
    scan has no [.conf] file of this name and the project scanner has no
    configuration file of this name with a path. *)
Definition noOverrideFile (textDocumentUri word : string) : Prop :=
  match getLastScanResult (extractRecipeName textDocumentUri) with
  | Some scan =>
      find (fun includePath =>
              String.eqb (path_ext includePath) ".conf" && String.eqb (path_name includePath) word)
        (includeHistory scan) = None
  | None => True
  end
  /\ match find (fun confFile => String.eqb (element_name confFile) word)
             (_confFiles bitbakeScanResult) with
     | Some confFile => element_path confFile = None
     | None => True
     end.

(** C10: [onDefinitionHandler] returns an array for every request, never
    [null]; the array is empty when the text of the document is not found,
    when there is no directive and no word at the position, when the word is
    neither a variable or function symbol nor in a string nor an override,
    and when it is an override for which no file resolves; and the word is
    looked up at the character [max(position.character - 1, 0)], which is
    never negative. *)
Theorem onDefinitionHandler_returns_an_array (params : TextDocumentPositionParams) :
  (exists definitions, onDefinitionHandler params = Some definitions)
  /\ (getDocumentTexts (textDocument_uri params) = None -> onDefinitionHandler params = Some [])
  /\ (noDirective params -> wordOf params = None -> onDefinitionHandler params = Some [])
  /\ (forall word,
        noDirective params -> wordOf params = Some word ->
        isVariableOrFunction (findExactSymbolAtPoint (textDocument_uri params) (position params) word)
          = false ->
        isStringContent (textDocument_uri params) (line (position params))
          (character (position params)) = false ->
        isOverride (textDocument_uri params) (line (position params))
          (character (position params)) = false
        \/ noOverrideFile (textDocument_uri params) word ->
        onDefinitionHandler params = Some [])
  /\ line (wordPosition params) = line (position params)
  /\ character (wordPosition params) = Z.max (character (position params) - 1) 0
  /\ (0 <= character (wordPosition params))%Z.
Proof.
  assert (D : forall k p (X : option (list Location)) (Y : string -> string -> option (list Location)),
             k = None \/ p = None ->
             match k, p with Some a, Some b => Y a b | _, _ => X end = X).
  { intros k p X Y [-> | ->]; [reflexivity | destruct k; reflexivity]. }
  repeat split.
  - unfold onDefinitionHandler.
    destruct (getDocumentTexts (textDocument_uri params)); [| eauto].
    destruct (getDirectiveStatementKeywordByNodeType params);
      destruct (getDirectivePathForPosition params); eauto;
      (destruct (wordAtPointFromTextPosition _); [| eauto];
       destruct (isVariableOrFunction _); [eauto |];
       destruct (isStringContent _ _ _); [eauto |];
       destruct (isOverride _ _ _); [| eauto];
       destruct (match getLastScanResult _ with Some _ => _ | None => _ end); [eauto |];
       destruct (find _ (_confFiles bitbakeScanResult)) as [[n [pth |]] |]; eauto).
  - intros H. unfold onDefinitionHandler. now rewrite H.
  - intros Hd Hw. unfold onDefinitionHandler, wordOf in *.
    destruct (getDocumentTexts (textDocument_uri params)); [| reflexivity].
    rewrite D by exact Hd. now rewrite Hw.
  - intros word Hd Hw Hs Hc Ho. unfold onDefinitionHandler, wordOf in *.
    destruct (getDocumentTexts (textDocument_uri params)); [| reflexivity].
    rewrite D by exact Hd. rewrite Hw, Hs, Hc.
    destruct Ho as [Ho | [Hi Hf]]; [now rewrite Ho |].
    destruct (isOverride _ _ _); [| reflexivity].
    destruct (getLastScanResult (extractRecipeName (textDocument_uri params))) as [scan |].
    + rewrite Hi.
      destruct (find _ (_confFiles bitbakeScanResult)) as [[n [pth |]] |];
        simpl in Hf; [discriminate | reflexivity | reflexivity].
    + destruct (find _ (_confFiles bitbakeScanResult)) as [[n [pth |]] |];
        simpl in Hf; [discriminate | reflexivity | reflexivity].
  - unfold wordPosition. simpl. lia.
Qed.

(** *** Further properties of the definition handler *)

Definition zeroRange : Range := newRange 0 0 0 0.

Lemma getDefinitionForDirectives_ranges directiveStatementKeyword directivePath :
  Forall (fun l => range l = zeroRange)
    (getDefinitionForDirectives directiveStatementKeyword directivePath).
Proof.
  assert (L : forall elementInfos,
             Forall (fun l => range l = zeroRange)
               (flat_map (fun elementInfo =>
                            match element_path elementInfo with
                            | Some path => [createDefinitionLocationForPathInfo path]
                            | None => []
                            end) elementInfos)).
  { intros elementInfos. apply Forall_forall. intros l Hin.
    apply in_flat_map in Hin as [e [_ Hin]].
    destruct (element_path e); simpl in Hin; [| contradiction].
    destruct Hin as [<- | []]. reflexivity. }
  unfold getDefinitionForDirectives.
  destruct (String.eqb directiveStatementKeyword "inherit"); [apply L |].
  destruct (String.eqb directiveStatementKeyword "require"
            || String.eqb directiveStatementKeyword "include"); [apply L | constructor].
Qed.

(** X11: [getDefinitionForDirectives] answers [inherit] with the locations
    of the classes of the project scan that have exactly this name and a
    path, [require] and [include] alike with the locations of the files the
    analyzer finds that have a path, and any other keyword with no location;
    every location is the file of the path at the range (0,0)-(0,0). *)
Theorem directive_definitions directiveStatementKeyword directivePath :
  (forall l,
      In l (getDefinitionForDirectives "inherit" directivePath) <->
      exists bbclass path,
        In bbclass (_classes bitbakeScanResult)
        /\ element_name bbclass = directivePath
        /\ element_path bbclass = Some path
        /\ l = createDefinitionLocationForPathInfo path)
  /\ (forall l,
        In l (getDefinitionForDirectives "require" directivePath) <->
        exists elementInfo path,
          In elementInfo (findFilesInProjectScanner directivePath)
          /\ element_path elementInfo = Some path
          /\ l = createDefinitionLocationForPathInfo path)
  /\ getDefinitionForDirectives "include" directivePath
     = getDefinitionForDirectives "require" directivePath
  /\ (directiveStatementKeyword <> "inherit" ->
      directiveStatementKeyword <> "require" ->
      directiveStatementKeyword <> "include" ->
      getDefinitionForDirectives directiveStatementKeyword directivePath = [])
  /\ Forall (fun l => range l = newRange 0 0 0 0)
       (getDefinitionForDirectives directiveStatementKeyword directivePath).
Proof.
  split; [| split; [| split; [| split]]].
  - intros l. unfold getDefinitionForDirectives. simpl. rewrite in_flat_map. split.
    + intros [e [He Hin]]. apply filter_In in He as [He1 He2]. apply String.eqb_eq in He2.
      destruct (element_path e) as [path |] eqn:Hp; simpl in Hin; [| contradiction].
      destruct Hin as [<- | []]. exists e, path. auto.
    + intros [e [path [He [Hn [Hp ->]]]]]. exists e. split.
      * apply filter_In. split; auto. now apply String.eqb_eq.
      * rewrite Hp. now left.
  - intros l. unfold getDefinitionForDirectives. simpl. rewrite in_flat_map. split.
    + intros [e [He Hin]].
      destruct (element_path e) as [path |] eqn:Hp; simpl in Hin; [| contradiction].
      destruct Hin as [<- | []]. exists e, path. auto.
    + intros [e [path [He [Hp ->]]]]. exists e. split; auto. rewrite Hp. now left.
  - reflexivity.
  - intros H1 H2 H3. unfold getDefinitionForDirectives.
    apply String.eqb_neq in H1, H2, H3. now rewrite H1, H2, H3.
  - apply getDefinitionForDirectives_ranges.
Qed.

(** X12: [getAllDefinitionSymbolsForSymbolAtPoint] returns exactly the global
    declaration symbols of the document and of the files it includes that
    have the name of the word and the kind of the symbol at the point, and
    nothing when there is no symbol at the point. *)
Theorem all_definition_symbols textDocumentUri word symbolAtPoint s :
  In s (getAllDefinitionSymbolsForSymbolAtPoint textDocumentUri word symbolAtPoint) <->
  exists symbol,
    symbolAtPoint = Some symbol
    /\ (In s (getGlobalDeclarationSymbols textDocumentUri)
        \/ exists includeUris includeFileUri,
             getIncludeUrisForUri textDocumentUri = Some includeUris
             /\ In includeFileUri includeUris
             /\ In s (getGlobalDeclarationSymbols includeFileUri))
    /\ symbol_name s = word
    /\ symbol_kind s = symbol_kind symbol.
Proof.
  unfold getAllDefinitionSymbolsForSymbolAtPoint.
  destruct symbolAtPoint as [symbol |].
  2:{ split; [intros [] | intros [x [C _]]; discriminate]. }
  rewrite filter_In, in_app_iff, andb_true_iff, String.eqb_eq, Z.eqb_eq. split.
  - intros [[H | H] [Hn Hk]]; exists symbol; repeat split; auto.
    destruct (getIncludeUrisForUri textDocumentUri) as [includeUris |]; [| contradiction].
    apply in_flat_map in H as [inc [Hi Hs]]. right. eauto.
  - intros [x [E [H [Hn Hk]]]]. injection E as <-. repeat split; auto.
    destruct H as [H | [includeUris [inc [Hu [Hi Hs]]]]]; [now left |].
    right. rewrite Hu. apply in_flat_map. eauto.
Qed.

(** The request is answered with the declarations and the modification
    history of a variable or function symbol. *)
Definition answersWithSymbol (params : TextDocumentPositionParams) : Prop :=
  noDirective params
  /\ exists word,
       wordOf params = Some word
       /\ isVariableOrFunction
            (findExactSymbolAtPoint (textDocument_uri params) (position params) word) = true.

(** X13: only the answer for a variable or function symbol carries ranges
    of its own: in every other request (a directive, a symbol in a string,
    an override) each location that [onDefinitionHandler] returns is at the
    range (0,0)-(0,0). *)
Theorem only_symbols_carry_ranges params definitions :
  onDefinitionHandler params = Some definitions ->
  ~ answersWithSymbol params ->
  Forall (fun l => range l = newRange 0 0 0 0) definitions.
Proof.
  unfold onDefinitionHandler, answersWithSymbol, noDirective, wordOf.
  intros H N.
  destruct (getDocumentTexts (textDocument_uri params)).
  2:{ injection H as <-. constructor. }
  assert (T : (getDirectiveStatementKeywordByNodeType params = None
               \/ getDirectivePathForPosition params = None) ->
              match wordAtPointFromTextPosition
                      (mkParams (textDocument_uri params) (wordPosition params)) with
              | Some word =>
                  if isVariableOrFunction
                       (findExactSymbolAtPoint (textDocument_uri params) (position params) word)
                  then Some (map symbol_location
                               (getAllDefinitionSymbolsForSymbolAtPoint (textDocument_uri params) word
                                  (findExactSymbolAtPoint (textDocument_uri params) (position params) word))
                             ++ modificationHistoryDefinitions
                                  (getLastScanResult (extractRecipeName (textDocument_uri params)))
                                  (findExactSymbolAtPoint (textDocument_uri params) (position params) word))
                  else if isStringContent (textDocument_uri params) (line (position params))
                            (character (position params))
                  then Some (map (fun symbol => mkLocation (uri (symbol_location symbol)) (newRange 0 0 0 0))
                               (getSymbolsInStringContent (textDocument_uri params)
                                  (line (position params)) (character (position params))))
                  else if isOverride (textDocument_uri params) (line (position params))
                            (character (position params))
                  then match match getLastScanResult (extractRecipeName (textDocument_uri params)) with
                             | Some scan =>
                                 find (fun includePath =>
                                         String.eqb (path_ext includePath) ".conf"
                                         && String.eqb (path_name includePath) word)
                                   (includeHistory scan)
                             | None => None
                             end with
                       | Some target => Some [createDefinitionLocationForPathInfo target]
                       | None =>
                           match find (fun confFile => String.eqb (element_name confFile) word)
                                   (_confFiles bitbakeScanResult) with
                           | Some (mkElementInfo _ (Some path)) =>
                               Some [createDefinitionLocationForPathInfo path]
                           | _ => Some []
                           end
                       end
                  else Some []
              | None => Some []
              end = Some definitions ->
              Forall (fun l => range l = newRange 0 0 0 0) definitions).
  { intros D H'.
    destruct (wordAtPointFromTextPosition _) as [word |]; [| injection H' as <-; constructor].
    destruct (isVariableOrFunction _) eqn:V.
    { exfalso. apply N. split; [exact D | eauto]. }
    destruct (isStringContent _ _ _).
    { injection H' as <-. apply Forall_forall. intros loc Hin.
      apply in_map_iff in Hin as [x [<- _]]. reflexivity. }
    destruct (isOverride _ _ _); [| injection H' as <-; constructor].
    destruct (match getLastScanResult _ with Some _ => _ | None => _ end).
    { injection H' as <-. repeat constructor. }
    destruct (find _ (_confFiles bitbakeScanResult)) as [[n [pth |]] |];
      injection H' as <-; repeat constructor. }
  destruct (getDirectiveStatementKeywordByNodeType params) as [keyword |];
    destruct (getDirectivePathForPosition params) as [path |]; auto.
  injection H as <-. apply getDefinitionForDirectives_ranges.
Qed.

(** X14: the locations of the modification history of the symbol that
    [onDefinitionHandler] adds keep their ranges and their order; without a
    connection they are the locations of the history themselves, and with
    one a location with the URI [file://p] gets the path the client
    resolves for [p], or keeps its URI when the client resolves none. *)
Theorem modification_history_locations scan symbol foundSymbol :
  matchSymbol symbol (symbols scan) = Some foundSymbol ->
  map range (modificationHistoryDefinitions (Some scan) (Some symbol))
  = map range (extractModificationHistoryFromComments foundSymbol)
  /\ (connection = None ->
      modificationHistoryDefinitions (Some scan) (Some symbol)
      = extractModificationHistoryFromComments foundSymbol)
  /\ (forall sendRequest location path,
        connection = Some sendRequest ->
        In location (extractModificationHistoryFromComments foundSymbol) ->
        uri location = ("file://" ++ path)%string ->
        In (mkLocation
              match sendRequest "bitbake/resolveContainerPath" path with
              | Some resolved => resolved
              | None => uri location
              end
              (range location))
          (modificationHistoryDefinitions (Some scan) (Some symbol))).
Proof.
  intros Hm. unfold modificationHistoryDefinitions. rewrite Hm.
  split; [| split].
  - rewrite map_map. apply map_ext. reflexivity.
  - intros ->. rewrite <- (map_id (extractModificationHistoryFromComments foundSymbol)) at 2.
    apply map_ext. intros [u r]. reflexivity.
  - intros sendRequest location path -> Hin Hu.
    apply in_map_iff. exists location. split; [| exact Hin].
    now rewrite Hu, replace_leading.
Qed.

(** X15: a word that is neither a directive nor a variable or function
    symbol nor in a string resolves to at most one location; when it is an
    override and the include history of the last scan has a [.conf] file of
    its name, the first such file is the answer, whatever configuration
    files the project scan has. *)
Theorem override_resolves_to_at_most_one params word :
  noDirective params ->
  wordOf params = Some word ->
  isVariableOrFunction
    (findExactSymbolAtPoint (textDocument_uri params) (position params) word) = false ->
  isStringContent (textDocument_uri params) (line (position params))
    (character (position params)) = false ->
  exists definitions,
    onDefinitionHandler params = Some definitions
    /\ (List.length definitions <= 1)%nat
    /\ (forall text scan target,
          getDocumentTexts (textDocument_uri params) = Some text ->
          isOverride (textDocument_uri params) (line (position params))
            (character (position params)) = true ->
          getLastScanResult (extractRecipeName (textDocument_uri params)) = Some scan ->
          find (fun includePath =>
                  String.eqb (path_ext includePath) ".conf"
                  && String.eqb (path_name includePath) word)
            (includeHistory scan) = Some target ->
          definitions = [createDefinitionLocationForPathInfo target]).
Proof.
  intros Hd Hw Hs Hc.
  assert (D : forall k p (X : option (list Location)) (Y : string -> string -> option (list Location)),
             k = None \/ p = None ->
             match k, p with Some a, Some b => Y a b | _, _ => X end = X).
  { intros k p X Y [-> | ->]; [reflexivity | destruct k; reflexivity]. }
  unfold onDefinitionHandler, wordOf in *.
  destruct (getDocumentTexts (textDocument_uri params)) as [text |].
  2:{ exists []. repeat split; auto. intros; discriminate. }
  rewrite D by exact Hd. rewrite Hw, Hs, Hc.
  destruct (isOverride _ _ _).
  2:{ exists []. repeat split; auto. intros; discriminate. }
  destruct (getLastScanResult (extractRecipeName (textDocument_uri params))) as [scan |].
  - destruct (find _ (includeHistory scan)) as [target |] eqn:F.
    + eexists. repeat split; simpl; auto.
      intros t sc tg _ _ E1 E2. injection E1 as <-. rewrite F in E2. now injection E2 as <-.
    + destruct (find _ (_confFiles bitbakeScanResult)) as [[n [pth |]] |];
        eexists; repeat split; simpl; auto;
        intros t sc tg _ _ E1 E2; injection E1 as <-; rewrite F in E2; discriminate.
  - destruct (find _ (_confFiles bitbakeScanResult)) as [[n [pth |]] |];
      eexists; repeat split; simpl; auto; intros; discriminate.
Qed.

End Handler.

(** *** A server that has not seen the document *)

Definition noWord (_ : TextDocumentPositionParams) : option string := None.
Definition noText (_ : string) : option (list string) := None.
Definition noScan (_ : string) : option LastScanResult := None.
Definition noKeyword (_ : TextDocumentPositionParams) : option string := None.
Definition noSymbol (_ : string) (_ : Position) (_ : string) : option BitbakeSymbolInformation := None.
Definition noMatch (_ : BitbakeSymbolInformation) (_ : list BitbakeSymbolInformation)
  : option BitbakeSymbolInformation := None.
Definition request : TextDocumentPositionParams := mkParams "file:///recipes/foo.bb" (mkPosition 3 0).

(** A request on a document the analyzer has no text of. *)
Lemma onDefinitionHandler_returns_an_array_witness :
  noText (textDocument_uri request) = None
  /\ onDefinitionHandler noWord noText noScan (fun u => u) noKeyword noKeyword
       (fun path _ => path) noSymbol noMatch (fun _ => []) (fun _ _ _ => false)
       (fun _ _ _ => []) (fun _ _ _ => false) (fun _ => []) (fun _ => []) (fun _ => None)
       (mkBitbakeScanResult [] []) None (fun u => u) request
     = Some []
  /\ character (wordPosition request) = 0%Z.
Proof.
  split; [reflexivity |]. split; [| reflexivity].
  exact (proj1 (proj2 (onDefinitionHandler_returns_an_array noWord noText noScan (fun u => u)
                         noKeyword noKeyword (fun path _ => path) noSymbol noMatch (fun _ => [])
                         (fun _ _ _ => false) (fun _ _ _ => []) (fun _ _ _ => false) (fun _ => [])
                         (fun _ => []) (fun _ => None) (mkBitbakeScanResult [] []) None
                         (fun u => u) request)) eq_refl).
Defined.

(** *** A server that knows the distribution [poky] *)

Definition pokyConf : ParsedPath :=
  mkParsedPath "/" "/layers/meta-poky/conf/distro" "poky.conf" ".conf" "poky".
Definition pokyWord (_ : TextDocumentPositionParams) : option string := Some "poky".
Definition someText (_ : string) : option (list string) := Some ["DISTRO_FEATURES:poky = x"].
Definition pokyScan (_ : string) : option LastScanResult := Some (mkLastScanResult [] [pokyConf]).
Definition overrideAt (_ : string) (_ _ : Z) : bool := true.
Definition overrideRequest : TextDocumentPositionParams :=
  mkParams "file:///recipes/foo.bb" (mkPosition 0 18).

(** The override [poky] resolves to its distribution file, at the zero range. *)
Lemma only_symbols_carry_ranges_witness :
  Forall (fun l => range l = newRange 0 0 0 0)
    [mkLocation "file:///layers/meta-poky/conf/distro/poky.conf" (newRange 0 0 0 0)].
Proof.
  apply (only_symbols_carry_ranges pokyWord someText pokyScan (fun u => u) noKeyword noKeyword
           (fun path _ => path) noSymbol noMatch (fun _ => []) (fun _ _ _ => false)
           (fun _ _ _ => []) overrideAt (fun _ => []) (fun _ => []) (fun _ => None)
           (mkBitbakeScanResult [] []) None (fun u => u) overrideRequest).
  - reflexivity.
  - intros [_ [word [_ V]]]. discriminate V.
Defined.

(** The include history has [poky.conf]: it is the one answer. *)
Lemma override_resolves_to_at_most_one_witness :
  wordOf pokyWord overrideRequest = Some "poky"
  /\ exists definitions,
       onDefinitionHandler pokyWord someText pokyScan (fun u => u) noKeyword noKeyword
         (fun path _ => path) noSymbol noMatch (fun _ => []) (fun _ _ _ => false)
         (fun _ _ _ => []) overrideAt (fun _ => []) (fun _ => []) (fun _ => None)
         (mkBitbakeScanResult [] []) None (fun u => u) overrideRequest
       = Some definitions
       /\ (List.length definitions <= 1)%nat
       /\ definitions = [createDefinitionLocationForPathInfo (fun u => u) pokyConf].
Proof.
  split; [reflexivity |].
  destruct (override_resolves_to_at_most_one pokyWord someText pokyScan (fun u => u) noKeyword
              noKeyword (fun path _ => path) noSymbol noMatch (fun _ => []) (fun _ _ _ => false)
              (fun _ _ _ => []) overrideAt (fun _ => []) (fun _ => []) (fun _ => None)
              (mkBitbakeScanResult [] []) None (fun u => u) overrideRequest "poky"
              (or_introl eq_refl) eq_refl eq_refl eq_refl) as [definitions [E [L F]]].
  exists definitions. split; [exact E |]. split; [exact L |].
  exact (F _ _ pokyConf eq_refl eq_refl eq_refl eq_refl).
Defined.

(** *** A variable with a modification history *)

Definition fooSymbol : BitbakeSymbolInformation :=
  mkSymbol "FOO" SymbolKind_Variable (mkLocation "file:///recipes/foo.bb" (newRange 3 0 3 3)).
Definition fooScan : LastScanResult := mkLastScanResult [fooSymbol] [].
Definition matchByName (symbol : BitbakeSymbolInformation) (candidates : list BitbakeSymbolInformation)
  : option BitbakeSymbolInformation :=
  find (fun candidate => String.eqb (symbol_name candidate) (symbol_name symbol)) candidates.
Definition fooHistory (_ : BitbakeSymbolInformation) : list Location :=
  [mkLocation "file:///layers/meta/conf/layer.conf" (newRange 7 0 7 0)].
Definition containerPaths (method path : string) : option string :=
  if String.eqb method "bitbake/resolveContainerPath" then Some ("/workdir" ++ path)%string else None.

(** The client resolves the layer file below its work directory. *)
Lemma modification_history_locations_witness :
  matchByName fooSymbol (symbols fooScan) = Some fooSymbol
  /\ In (mkLocation "/workdir/layers/meta/conf/layer.conf" (newRange 7 0 7 0))
       (modificationHistoryDefinitions matchByName fooHistory (Some containerPaths)
          (Some fooScan) (Some fooSymbol)).
Proof.
  split; [reflexivity |].
  exact (proj2 (proj2 (modification_history_locations matchByName fooHistory (Some containerPaths)
                         fooScan fooSymbol fooSymbol eq_refl))
           containerPaths
           (mkLocation "file:///layers/meta/conf/layer.conf" (newRange 7 0 7 0))
           "/layers/meta/conf/layer.conf" eq_refl (or_introl eq_refl) eq_refl).
Defined.

End OnDefinition.
